(** * A shallow embedding of the messaging core of JClearnin/learn

    Sources embedded here:
    - [src/communication_queue.py]: [Message], [CommunicationQueue],
      [MessageSerializer];
    - [src/pubsub_module.py]: [PubSubWithQueue] with its consumer threads;
    - [src/demo.py]: the named-subscriber [PubSubWithQueue] and
      [CommunicationTopic].

    Python objects are modelled by the inductive [pyval]; Python floats are
    IEEE binary64 values, represented by the Standard Library's
    [spec_float]. The [json] module is modelled at the level of the JSON
    document it writes and reads: ints are written in decimal, finite floats
    by [float.__repr__], which reads back to the same float, so the text
    layer is the identity on documents. *)

From Stdlib Require Import ZArith Bool List String Lia.
From Stdlib Require Import Floats.SpecFloat.
From stdpp Require Import base gmap strings countable.

Import ListNotations.
Set Warnings "-register-all -notation-for-abbreviation".
Open Scope Z_scope.

(* ================================================================= *)
(** ** Python values *)

Notation pyfloat := spec_float.

(** Python objects reachable from a message: [None], [bool], [int],
    [float], [str], [list], [tuple], [dict] (insertion-ordered key/value
    pairs) and any other object, compared by identity ([oid]). *)
Inductive pyval : Type :=
| PNone
| PBool (b : bool)
| PInt (z : Z)
| PFloat (f : pyfloat)
| PStr (s : string)
| PList (xs : list pyval)
| PTuple (xs : list pyval)
| PDict (kvs : list (pyval * pyval))
| PObject (oid : nat).

(** Numeric view used by [==] across [bool], [int] and [float]. *)
Inductive pynum := NInt (z : Z) | NFloat (f : pyfloat).

Definition as_num (v : pyval) : option pynum :=
  match v with
  | PBool b => Some (NInt (Z.b2z b))
  | PInt z => Some (NInt z)
  | PFloat f => Some (NFloat f)
  | _ => None
  end.

(** [float == int] in CPython is exact: the float must be an integer with
    the same value. *)
Definition float_eq_int (f : pyfloat) (z : Z) : bool :=
  match f with
  | S754_zero _ => Z.eqb z 0
  | S754_finite s m e =>
      let sm := if s then Z.neg m else Z.pos m in
      if Z.leb 0 e then Z.eqb z (sm * 2 ^ e)
      else Z.eqb (z * 2 ^ (- e)) sm
  | _ => false
  end.

Definition num_eqb (a b : pynum) : bool :=
  match a, b with
  | NInt x, NInt y => Z.eqb x y
  | NFloat f, NFloat g => SFeqb f g
  | NFloat f, NInt y | NInt y, NFloat f => float_eq_int f y
  end.

(** Element-wise comparison of two sequences, and the value stored under
    the first key satisfying [p] in a dict's pairs. *)
Fixpoint seq_eqb (eqb : pyval -> pyval -> bool) (xs ys : list pyval) : bool :=
  match xs, ys with
  | [], [] => true
  | x :: xs', y :: ys' => eqb x y && seq_eqb eqb xs' ys'
  | _, _ => false
  end.

Fixpoint find_key (p : pyval -> bool) (kvs : list (pyval * pyval)) : option pyval :=
  match kvs with
  | [] => None
  | (k, v) :: kvs' => if p k then Some v else find_key p kvs'
  end.

(** Python's [==] on these objects. A dict is equal to another when they
    have the same size and each key of the first is found in the second
    (hash lookup, which for these keys is lookup by [==]) with an equal
    value. *)
Fixpoint py_eqb (a b : pyval) {struct a} : bool :=
  match a, b with
  | PNone, PNone => true
  | PStr s, PStr t => String.eqb s t
  | PList xs, PList ys | PTuple xs, PTuple ys => seq_eqb py_eqb xs ys
  | PDict xs, PDict ys =>
      Nat.eqb (length xs) (length ys) &&
      forallb (fun kv => match find_key (py_eqb kv.1) ys with
                         | Some v' => py_eqb kv.2 v'
                         | None => false
                         end) xs
  | PObject n, PObject m => Nat.eqb n m
  | _, _ =>
      match as_num a, as_num b with
      | Some x, Some y => num_eqb x y
      | _, _ => false
      end
  end.

(** Lookup of a key in a dict ([d[k]]), and [d[k] = v]: an existing key
    keeps its position and takes the new value, a new key goes last. *)
Definition dict_get (kvs : list (pyval * pyval)) (k : pyval) : option pyval :=
  find_key (py_eqb k) kvs.

Fixpoint dict_setitem (kvs : list (pyval * pyval)) (k v : pyval)
  : list (pyval * pyval) :=
  match kvs with
  | [] => [(k, v)]
  | (k', v') :: kvs' =>
      if py_eqb k k' then (k', v) :: kvs' else (k', v') :: dict_setitem kvs' k v
  end.

(* ================================================================= *)
(** ** JSON documents and the [json] module *)

Inductive json : Type :=
| JNull
| JBool (b : bool)
| JInt (z : Z)
| JFloat (f : pyfloat)
| JStr (s : string)
| JArray (xs : list json)
| JObject (kvs : list (string * json)).

(** [f] applied to every element, failing as soon as one application
    fails. *)
Fixpoint traverse {A B : Type} (f : A -> option B) (l : list A) : option (list B) :=
  match l with
  | [] => Some []
  | x :: l' =>
      match f x, traverse f l' with
      | Some y, Some ys => Some (y :: ys)
      | _, _ => None
      end
  end.

Section Json.
(** [float.__repr__] as used by [json] for float dict keys, and
    [int.__repr__]. *)
Variable json_floatstr : pyfloat -> string.
Variable int_repr : Z -> string.

(** Dict keys: [str] kept, [float], [bool], [None] and [int] turned
    into strings, anything else raises [TypeError] ([None] here). *)
Definition json_key (k : pyval) : option string :=
  match k with
  | PStr s => Some s
  | PFloat f => Some (json_floatstr f)
  | PBool true => Some "true"%string
  | PBool false => Some "false"%string
  | PNone => Some "null"%string
  | PInt z => Some (int_repr z)
  | _ => None
  end.

(** [json.dumps] at the document level; [None] is the [TypeError] raised
    for objects that are not JSON serializable. Lists and tuples are both
    written as arrays. *)
Fixpoint to_json (v : pyval) : option json :=
  match v with
  | PNone => Some JNull
  | PBool b => Some (JBool b)
  | PInt z => Some (JInt z)
  | PFloat f => Some (JFloat f)
  | PStr s => Some (JStr s)
  | PList xs | PTuple xs => option_map JArray (traverse to_json xs)
  | PDict kvs =>
      option_map JObject
        (traverse (fun kv => match json_key kv.1, to_json kv.2 with
                             | Some s, Some j => Some (s, j)
                             | _, _ => None
                             end) kvs)
  | PObject _ => None
  end.
End Json.

(** [json.loads] at the document level: arrays become lists, objects
    become dicts built pair by pair (a repeated key keeps its first
    position and its last value). *)
Fixpoint of_json (j : json) : pyval :=
  match j with
  | JNull => PNone
  | JBool b => PBool b
  | JInt z => PInt z
  | JFloat f => PFloat f
  | JStr s => PStr s
  | JArray xs => PList (map of_json xs)
  | JObject kvs =>
      PDict (fold_left
               (fun (d : list (pyval * pyval)) (kv : string * pyval) =>
                  dict_setitem d (PStr kv.1) kv.2) 
               (map (fun kj : string * json => (kj.1, of_json kj.2)) kvs) [])
  end.

(* ================================================================= *)
(** ** [Message] and [MessageSerializer] (src/communication_queue.py) *)

(** The frozen dataclass [Message]; its fields hold any Python object. *)
Record Message : Type := mkMessage {
  type : pyval;
  payload : pyval;
  timestamp : pyval;
  message_id : pyval
}.

(** The clock and thread reading of a construction: [time.time()] and
    [threading.get_ident()]. *)
Record Env : Type := mkEnv { now : pyfloat; ident : Z }.

Definition is_none (v : pyval) : bool :=
  match v with PNone => true | _ => false end.

Section MessageSection.
Variable json_floatstr : pyfloat -> string.
Variable int_repr : Z -> string.
(** [format(x, '.6f')] for a float and for an int. *)
Variable float_fixed6 : pyfloat -> string.
Variable int_fixed6 : Z -> string.

(** The [:.6f] format spec; other objects raise. *)
Definition format_f6 (v : pyval) : option string :=
  match v with
  | PFloat f => Some (float_fixed6 f)
  | PInt z => Some (int_fixed6 z)
  | PBool b => Some (int_fixed6 (Z.b2z b))
  | _ => None
  end.

(** [Message(type, payload, timestamp, message_id)] followed by
    [__post_init__]; [None] is an exception out of the f-string. There is
    no check on [type]. *)
Definition Message_new (ty pl ts mid : pyval) (env : Env) : option Message :=
  let ts' := if is_none ts then PFloat (now env) else ts in
  if is_none mid then
    match format_f6 ts' with
    | Some s => Some (mkMessage ty pl ts' (PStr (s ++ "_" ++ int_repr (ident env))))
    | None => None
    end
  else Some (mkMessage ty pl ts' mid).

(** [Message(kind, payload)]: timestamp and id generated. *)
Definition Message_make (ty pl : pyval) (env : Env) : option Message :=
  Message_new ty pl PNone PNone env.

Definition to_dict (m : Message) : pyval :=
  PDict [(PStr "type", type m); (PStr "payload", payload m);
         (PStr "timestamp", timestamp m); (PStr "message_id", message_id m)].

(** [Message.from_dict]: [data['...']] raises [KeyError] on a missing key
    and [TypeError] on a non-dict, both [None] here. *)
Definition from_dict (data : pyval) (env : Env) : option Message :=
  match data with
  | PDict kvs =>
      match dict_get kvs (PStr "type"), dict_get kvs (PStr "payload"),
            dict_get kvs (PStr "timestamp"), dict_get kvs (PStr "message_id") with
      | Some ty, Some pl, Some ts, Some mid => Message_new ty pl ts mid env
      | _, _, _, _ => None
      end
  | _ => None
  end.

(** [MessageSerializer.serialize] / [deserialize]. *)
Definition serialize (m : Message) : option json :=
  to_json json_floatstr int_repr (to_dict m).

Definition deserialize (data : json) (env : Env) : option Message :=
  from_dict (of_json data) env.
End MessageSection.

(** The dataclass [__eq__]: the field tuples compared with [==]. *)
Definition Message_eqb (m1 m2 : Message) : bool :=
  py_eqb (type m1) (type m2) && py_eqb (payload m1) (payload m2) &&
  py_eqb (timestamp m1) (timestamp m2) && py_eqb (message_id m1) (message_id m2).

(** Values that [json] writes and reads back unchanged: no tuples, no NaN,
    dicts with distinct string keys, no other objects. *)
Definition str_key (k : pyval) : option string :=
  match k with PStr s => Some s | _ => None end.

Fixpoint distinct_strs (l : list string) : bool :=
  match l with
  | [] => true
  | s :: l' => negb (existsb (String.eqb s) l') && distinct_strs l'
  end.

Fixpoint json_native (v : pyval) : bool :=
  match v with
  | PNone | PBool _ | PInt _ | PStr _ => true
  | PFloat f => SFeqb f f
  | PList xs => forallb json_native xs
  | PTuple _ => false
  | PDict kvs =>
      match traverse str_key (map fst kvs) with
      | Some ks => distinct_strs ks
      | None => false
      end && forallb (fun kv => json_native kv.2) kvs
  | PObject _ => false
  end.

(* ================================================================= *)
(** ** [CommunicationQueue] (src/communication_queue.py) *)

(** What a hook callback does when called: return, raise an [Exception]
    (caught by [except Exception]) or raise a [BaseException] that is not
    an [Exception] ([SystemExit], [KeyboardInterrupt]), which is not. Hooks
    are observers: they do not touch the queue. *)
Inductive hook_outcome := HookReturns | HookRaisesException | HookRaisesBaseException.

Record Hook : Type := mkHook { hook_id : nat; hook_call : Message -> hook_outcome }.

(** Observable effects: hook calls and the two [print] lines of [put]. *)
Inductive event : Type :=
| EvHookCalled (h : nat) (m : Message)
| EvHookFailed (qname : string) (h : nat)
| EvDropped (qname : string) (m : Message).

(** Exceptions leaving the queue's methods: the [ValueError] of the type
    filter, the [ValueError] of [queue.Queue] for a negative timeout, and a
    hook's [BaseException]. *)
Inductive exn : Type :=
| ValueErrorUnsupportedType
| ValueErrorNegativeTimeout
| HookBaseException (h : nat).

Record CommunicationQueue : Type := mkCQ {
  maxsize : Z;
  name : string;
  message_types : option (list pyval);
  items : list Message;            (* the [queue.Queue], head first *)
  dropped_count : Z;
  hooks : list (pyval * list Hook)  (* [_hooks], insertion-ordered *)
}.

Definition set_items (q : CommunicationQueue) (l : list Message) : CommunicationQueue :=
  mkCQ (maxsize q) (name q) (message_types q) l (dropped_count q) (hooks q).

Definition set_dropped (q : CommunicationQueue) (n : Z) : CommunicationQueue :=
  mkCQ (maxsize q) (name q) (message_types q) (items q) n (hooks q).

Definition set_hooks (q : CommunicationQueue) (hs : list (pyval * list Hook))
  : CommunicationQueue :=
  mkCQ (maxsize q) (name q) (message_types q) (items q) (dropped_count q) hs.

(** [set(message_types) if message_types else None]. *)
Definition init_message_types (mt : option (list pyval)) : option (list pyval) :=
  match mt with
  | Some ((_ :: _) as ts) => Some ts
  | _ => None
  end.

Definition CommunicationQueue_init (maxsize : Z) (name : string)
  (mt : option (list pyval)) : CommunicationQueue :=
  mkCQ maxsize name (init_message_types mt) [] 0 [].

Definition qsize (q : CommunicationQueue) : Z := Z.of_nat (length (items q)).

Definition hooks_get (hs : list (pyval * list Hook)) (t : pyval) : option (list Hook) :=
  match find (fun kv => py_eqb t kv.1) hs with
  | Some kv => Some kv.2
  | None => None
  end.

Fixpoint hooks_append (hs : list (pyval * list Hook)) (t : pyval) (cb : Hook)
  : list (pyval * list Hook) :=
  match hs with
  | [] => [(t, [cb])]
  | (k, l) :: hs' => if py_eqb t k then (k, l ++ [cb]) :: hs' else (k, l) :: hooks_append hs' t cb
  end.

(** [register_hook]: a new kind gets an empty list, then [append]. *)
Definition register_hook (q : CommunicationQueue) (t : pyval) (cb : Hook)
  : CommunicationQueue :=
  set_hooks q (hooks_append (hooks q) t cb).

(** [queue.Queue.put] with no other thread running: a wait for space that
    nobody frees either never ends or ends in [Full] at the timeout. *)
Inductive qput_result := QPutOk (l : list Message) | QFull | QPutBlocked | QPutValueError.

Definition queue_put (maxsize : Z) (l : list Message) (m : Message) (block : bool)
  (timeout : option pyfloat) : qput_result :=
  let full := Z.leb maxsize (Z.of_nat (length l)) in
  if Z.ltb 0 maxsize then
    if negb block then (if full then QFull else QPutOk (l ++ [m]))
    else match timeout with
         | None => if full then QPutBlocked else QPutOk (l ++ [m])
         | Some t =>
             if SFltb t (S754_zero false) then QPutValueError
             else if full then QFull else QPutOk (l ++ [m])
         end
  else QPutOk (l ++ [m]).

(** The hook loop of [put]: each hook is called in order; an [Exception] is
    printed and the loop goes on; a [BaseException] leaves [put]. *)
Fixpoint run_hooks (qname : string) (hs : list Hook) (m : Message)
  : list event * option exn :=
  match hs with
  | [] => ([], None)
  | h :: hs' =>
      match hook_call h m with
      | HookReturns =>
          let '(evs, r) := run_hooks qname hs' m in (EvHookCalled (hook_id h) m :: evs, r)
      | HookRaisesException =>
          let '(evs, r) := run_hooks qname hs' m in
          (EvHookCalled (hook_id h) m :: EvHookFailed qname (hook_id h) :: evs, r)
      | HookRaisesBaseException =>
          ([EvHookCalled (hook_id h) m], Some (HookBaseException (hook_id h)))
      end
  end.

Inductive put_outcome := PutReturn (b : bool) | PutRaise (e : exn) | PutBlocked.

(** [if self._message_types and message.type not in self._message_types]. *)
Definition type_rejected (q : CommunicationQueue) (m : Message) : bool :=
  match message_types q with
  | Some ((_ :: _) as ts) => negb (existsb (py_eqb (type m)) ts)
  | _ => false
  end.

(** [CommunicationQueue.put]. *)
Definition put (q : CommunicationQueue) (m : Message) (block : bool)
  (timeout : option pyfloat) : CommunicationQueue * list event * put_outcome :=
  if type_rejected q m then (q, [], PutRaise ValueErrorUnsupportedType)
  else
    match queue_put (maxsize q) (items q) m block timeout with
    | QPutOk l =>
        let q' := set_items q l in
        match hooks_get (hooks q) (type m) with
        | Some hs =>
            let '(evs, r) := run_hooks (name q) hs m in
            (q', evs, match r with None => PutReturn true | Some e => PutRaise e end)
        | None => (q', [], PutReturn true)
        end
    | QFull =>
        (set_dropped q (dropped_count q + 1), [EvDropped (name q) m], PutReturn false)
    | QPutBlocked => (q, [], PutBlocked)
    | QPutValueError => (q, [], PutRaise ValueErrorNegativeTimeout)
    end.

(** [queue.Queue.get] with no other thread running, and
    [CommunicationQueue.get], which turns [Empty] into [None]. *)
Inductive get_outcome := GetReturn (m : option Message) | GetRaise (e : exn) | GetBlocked.

Definition get (q : CommunicationQueue) (block : bool) (timeout : option pyfloat)
  : CommunicationQueue * get_outcome :=
  let pop := match items q with
             | [] => (q, GetReturn None)
             | m :: l => (set_items q l, GetReturn (Some m))
             end in
  if negb block then pop
  else match timeout with
       | None => match items q with [] => (q, GetBlocked) | _ => pop end
       | Some t => if SFltb t (S754_zero false) then (q, GetRaise ValueErrorNegativeTimeout)
                   else pop
       end.

(** One turn of the [get_by_type] loop as seen from outside: whether the
    elapsed-time check fires ([time.time() - start_time > timeout]), and a
    message another thread puts (non-blocking) right after this turn's
    [get]. *)
Record gbt_turn : Type := mkTurn { expired : bool; interleaved : option Message }.

Inductive gbt_outcome :=
| GbtReturn (m : option Message)
| GbtRaise (e : exn)
| GbtBlocked
| GbtRunning.   (* still looping when the turns run out *)

Definition poll_timeout (block : bool) : option pyfloat :=
  if block then Some (S754_finite false 7205759403792794 (-56))  (* 0.1 *)
  else Some (S754_zero false).                                   (* 0 *)

Definition other_thread_put (q : CommunicationQueue) (o : option Message)
  : CommunicationQueue * list event :=
  match o with
  | Some m' => let '(q', evs, _) := put q m' false None in (q', evs)
  | None => (q, [])
  end.

(** [CommunicationQueue.get_by_type]: a skipped message is put back with
    [put(msg, block=False)], whose result is ignored. *)
Fixpoint get_by_type (q : CommunicationQueue) (t : pyval) (block : bool)
  (timeout : option pyfloat) (turns : list gbt_turn)
  : CommunicationQueue * list event * gbt_outcome :=
  match turns with
  | [] => (q, [], GbtRunning)
  | st :: turns' =>
      if match timeout with Some _ => expired st | None => false end
      then (q, [], GbtReturn None)
      else
        match get q block (poll_timeout block) with
        | (q1, GetReturn (Some msg)) =>
            if py_eqb (type msg) t then (q1, [], GbtReturn (Some msg))
            else
              let '(q2, ev0) := other_thread_put q1 (interleaved st) in
              match put q2 msg false None with
              | (q3, ev1, PutRaise e) => (q3, ev0 ++ ev1, GbtRaise e)
              | (q3, ev1, _) =>
                  let '(q4, ev2, r) := get_by_type q3 t block timeout turns' in
                  (q4, ev0 ++ ev1 ++ ev2, r)
              end
        | (q1, GetReturn None) =>
            if block then
              let '(q2, ev0) := other_thread_put q1 (interleaved st) in
              let '(q3, ev1, r) := get_by_type q2 t block timeout turns' in
              (q3, ev0 ++ ev1, r)
            else (q1, [], GbtReturn None)
        | (q1, GetRaise e) => (q1, [], GbtRaise e)
        | (q1, GetBlocked) => (q1, [], GbtBlocked)
        end
  end.

(** The hooks [put] runs for a kind, and the trace the hook loop is meant to
    leave: every hook called in registration order, each failure printed. *)
Definition hooks_for (q : CommunicationQueue) (t : pyval) : list Hook :=
  match hooks_get (hooks q) t with Some hs => hs | None => [] end.

Definition hook_trace (qname : string) (hs : list Hook) (m : Message) : list event :=
  flat_map (fun h => EvHookCalled (hook_id h) m ::
                     match hook_call h m with
                     | HookRaisesException => [EvHookFailed qname (hook_id h)]
                     | _ => []
                     end) hs.

(** [n] successive [get(block=False)] calls. *)
Fixpoint drain (n : nat) (q : CommunicationQueue)
  : CommunicationQueue * list (option Message) :=
  match n with
  | O => (q, [])
  | S n' =>
      match get q false None with
      | (q', GetReturn r) => let '(q'', rs) := drain n' q' in (q'', r :: rs)
      | (q', _) => (q', [])
      end
  end.

(** [CommunicationQueue.clear]: [get_nowait()] while the queue is not
    [empty()]. Each turn removes one message, so [length] turns are all the
    loop runs with no other thread. *)
Fixpoint clear_loop (n : nat) (q : CommunicationQueue) : CommunicationQueue :=
  match n with
  | O => q
  | S n' =>
      match items q with
      | [] => q
      | _ :: _ =>
          match get q false None with
          | (q', GetReturn _) => clear_loop n' q'
          | (q', _) => q'
          end
      end
  end.

Definition clear (q : CommunicationQueue) : CommunicationQueue :=
  clear_loop (length (items q)) q.

(** [CommunicationQueue.__iter__]: [n] turns of the generator's loop
    [msg = self.get(block=True)]; [if msg: yield msg] (a [Message] is always
    true). Returns the queue, the messages yielded, and whether the
    generator is left waiting in [get] on an empty queue. *)
Fixpoint iter_run (n : nat) (q : CommunicationQueue)
  : CommunicationQueue * list Message * bool :=
  match n with
  | O => (q, [], false)
  | S n' =>
      match get q true None with
      | (q1, GetReturn (Some m)) => let '(q2, ys, b) := iter_run n' q1 in (q2, m :: ys, b)
      | (q1, GetReturn None) => iter_run n' q1
      | (q1, GetBlocked) => (q1, [], true)
      | (q1, GetRaise _) => (q1, [], false)
      end
  end.

(* ================================================================= *)
(** ** [PubSubWithQueue] with consumer threads (src/pubsub_module.py) *)

(** Queue objects live in a heap of unbounded [queue.Queue]s, addressed by
    [nat]; [None] is the exit signal. *)
Notation heap := (gmap nat (list pyval)).

Record PubSub : Type := mkPubSub {
  ps_topics : gmap string (gmap Z nat);  (* [self.topics] *)
  ps_next_sub_id : Z;                    (* [self.next_sub_id] *)
  ps_queues : heap;
  ps_next_q : nat
}.

Definition PubSub_init : PubSub := mkPubSub ∅ 1 ∅ 0.

(** [q.put(x)] on an unbounded queue. *)
Definition queue_append (h : heap) (q : nat) (x : pyval) : heap :=
  alter (fun l => l ++ [x]) q h.

(** [subscribe(topic, consumer_callback)]: returns [(sub_id, q)]; the
    consumer thread it starts is [consumer_run] below. *)
Definition ps_subscribe (ps : PubSub) (topic : string) : PubSub * (Z * nat) :=
  let topics := match ps_topics ps !! topic with
                | Some _ => ps_topics ps
                | None => <[topic := ∅]> (ps_topics ps)
                end in
  let q := ps_next_q ps in
  let sub_id := ps_next_sub_id ps in
  let subs := match topics !! topic with Some s => s | None => ∅ end in
  (mkPubSub (<[topic := <[sub_id := q]> subs]> topics) (sub_id + 1)
            (<[q := []]> (ps_queues ps)) (S q), (sub_id, q)).

(** [unsubscribe(topic, sub_id, q)]: the exit signal goes into the queue
    passed by the caller. *)
Definition ps_unsubscribe (ps : PubSub) (topic : string) (sub_id : Z) (q : nat) : PubSub :=
  match ps_topics ps !! topic with
  | Some subs =>
      match subs !! sub_id with
      | Some _ =>
          let subs' := delete sub_id subs in
          let topics' := if decide (subs' = ∅) then delete topic (ps_topics ps)
                         else <[topic := subs']> (ps_topics ps) in
          mkPubSub topics' (ps_next_sub_id ps) (queue_append (ps_queues ps) q PNone)
                   (ps_next_q ps)
      | None => ps
      end
  | None => ps
  end.

(** [publish(topic, message)]: [q.put(message)] for every queue of the
    topic's subscriptions; no check on [message]. *)
Definition ps_publish (ps : PubSub) (topic : string) (msg : pyval) : PubSub :=
  match ps_topics ps !! topic with
  | Some subs =>
      mkPubSub (ps_topics ps) (ps_next_sub_id ps)
        (map_fold (fun _ q h => queue_append h q msg) (ps_queues ps) subs) (ps_next_q ps)
  | None => ps
  end.

(** The consumer thread: [msg = q.get()]; [None] ends the loop; otherwise
    [consumer_callback(msg)], with nothing around it, so an exception from
    the callback ends the thread. *)
Inductive callback_outcome := CbReturns | CbRaises.

Inductive consumer_state :=
| CBlocked    (* waiting in [q.get()] on an empty queue *)
| CFinished   (* left the loop on [None] *)
| CDied       (* an exception from the callback ended the thread *)
| CRunning.   (* still running when the step budget ran out *)

(** At most [n] turns of the loop over the queue's contents; returns the
    thread's state, the messages left in the queue and the messages the
    callback was called with. *)
Fixpoint consumer_run (n : nat) (cb : pyval -> callback_outcome) (l : list pyval)
  : consumer_state * list pyval * list pyval :=
  match n with
  | O => (CRunning, l, [])
  | S n' =>
      match l with
      | [] => (CBlocked, [], [])
      | x :: l' =>
          if is_none x then (CFinished, l', [])
          else match cb x with
               | CbReturns => let '(st, r, seen) := consumer_run n' cb l' in (st, r, x :: seen)
               | CbRaises => (CDied, l', [x])
               end
      end
  end.

(* ================================================================= *)
(** ** Named subscriptions (src/demo.py) *)

Inductive CommunicationTopic :=
| UNKNOWN | FROM_TASK | FROM_UI | SELECTED_TASK_START | SELECTED_TASK_STOP
| AUTO_TASK_START | ADVANCE_AUTO_TASK_START | RESIZE_WINDOW | CLOSE_WINDOW
| AUTO_LOGIN | TASK_PROCESS_UPDATE | WINDOW_STATUS.

Definition topic_value (t : CommunicationTopic) : nat :=
  match t with
  | UNKNOWN => 1 | FROM_TASK => 2 | FROM_UI => 3 | SELECTED_TASK_START => 4
  | SELECTED_TASK_STOP => 5 | AUTO_TASK_START => 6 | ADVANCE_AUTO_TASK_START => 7
  | RESIZE_WINDOW => 8 | CLOSE_WINDOW => 9 | AUTO_LOGIN => 10
  | TASK_PROCESS_UPDATE => 11 | WINDOW_STATUS => 12
  end.

Definition topic_of_value (n : nat) : option CommunicationTopic :=
  match n with
  | 1 => Some UNKNOWN | 2 => Some FROM_TASK | 3 => Some FROM_UI
  | 4 => Some SELECTED_TASK_START | 5 => Some SELECTED_TASK_STOP
  | 6 => Some AUTO_TASK_START | 7 => Some ADVANCE_AUTO_TASK_START
  | 8 => Some RESIZE_WINDOW | 9 => Some CLOSE_WINDOW | 10 => Some AUTO_LOGIN
  | 11 => Some TASK_PROCESS_UPDATE | 12 => Some WINDOW_STATUS
  | _ => None
  end%nat.

#[global] Instance CommunicationTopic_eq_dec : EqDecision CommunicationTopic.
Proof. solve_decision. Defined.

#[global] Program Instance CommunicationTopic_countable : Countable CommunicationTopic :=
  inj_countable' topic_value (fun n => match topic_of_value n with Some t => t | None => UNKNOWN end) _.
Next Obligation. intros []; reflexivity. Qed.

Record Registry : Type := mkRegistry {
  sub_list : gmap CommunicationTopic (gmap string nat);  (* [self.sub_list] *)
  reg_queues : heap;
  reg_next_q : nat
}.

Definition Registry_init : Registry := mkRegistry ∅ ∅ 0.

(** [unsubscribe(name, topic)]. *)
Definition unsubscribe (r : Registry) (name : string) (topic : CommunicationTopic) : Registry :=
  match sub_list r !! topic with
  | Some subs =>
      match subs !! name with
      | Some q =>
          let subs' := delete name subs in
          let sl := if decide (subs' = ∅) then delete topic (sub_list r)
                    else <[topic := subs']> (sub_list r) in
          mkRegistry sl (queue_append (reg_queues r) q PNone) (reg_next_q r)
      | None => r
      end
  | None => r
  end.

(** What [subscribe] gives back: a queue, [None], or a [KeyError]. *)
Inductive subscribe_result := SubReturn (q : option nat) | SubKeyError.

(** [subscribe(name, topic)]. *)
Definition subscribe (r : Registry) (name : string) (topic : CommunicationTopic)
  : Registry * subscribe_result :=
  if String.eqb name "" || bool_decide (topic = UNKNOWN) then (r, SubReturn None)
  else
    let r1 := match sub_list r !! topic with
              | Some _ => r
              | None => mkRegistry (<[topic := ∅]> (sub_list r)) (reg_queues r) (reg_next_q r)
              end in
    let r2 := match sub_list r1 !! topic with
              | Some subs => match subs !! name with
                             | Some _ => unsubscribe r1 name topic
                             | None => r1
                             end
              | None => r1
              end in
    let q := reg_next_q r2 in
    let queues := <[q := []]> (reg_queues r2) in
    match sub_list r2 !! topic with
    | Some subs =>
        (mkRegistry (<[topic := <[name := q]> subs]> (sub_list r2)) queues (S q),
         SubReturn (Some q))
    | None => (mkRegistry (sub_list r2) queues (S q), SubKeyError)
    end.

(** Python truth value. *)
Definition py_truthy (v : pyval) : bool :=
  match v with
  | PNone => false
  | PBool b => b
  | PInt z => negb (Z.eqb z 0)
  | PFloat f => negb (SFeqb f (S754_zero false))
  | PStr s => negb (String.eqb s "")
  | PList xs | PTuple xs => match xs with [] => false | _ => true end
  | PDict kvs => match kvs with [] => false | _ => true end
  | PObject _ => true
  end.

(** [publish(topic, message)]: one [put] per subscribed queue. *)
Definition publish (r : Registry) (topic : CommunicationTopic) (msg : pyval) : Registry :=
  match sub_list r !! topic with
  | Some subs =>
      if py_truthy msg then
        mkRegistry (sub_list r)
          (map_fold (fun _ q h => queue_append h q msg) (reg_queues r) subs) (reg_next_q r)
      else r
  | None => r
  end.

(* ================================================================= *)
(** ** [EventManager] (src/demo.py) *)

(** [subscribe_to_topics] subscribes under
    [inspect.currentframe().f_code.co_name], the name of the method itself,
    to the keys of [register_topic_handlers()], in this order. *)
Definition em_sub_name : string := "subscribe_to_topics".

Definition em_topics : list CommunicationTopic := [FROM_TASK; FROM_UI].

(** The loop of [subscribe_to_topics]: [q = self.pubsub.subscribe(sub_name,
    topic=topic)]; [if q:] (a [queue.Queue] is always true) records it in
    [_subscribed_queues]. [None] is a [KeyError] out of [subscribe]. *)
Fixpoint em_subscribe (r : Registry) (name : string) (ts : list CommunicationTopic)
  : option (Registry * list (CommunicationTopic * nat)) :=
  match ts with
  | [] => Some (r, [])
  | t :: ts' =>
      match subscribe r name t with
      | (r1, SubReturn (Some q)) =>
          match em_subscribe r1 name ts' with
          | Some (r2, l) => Some (r2, (t, q) :: l)
          | None => None
          end
      | (r1, SubReturn None) => em_subscribe r1 name ts'
      | (_, SubKeyError) => None
      end
  end.

Definition subscribe_to_topics (r : Registry) : option (Registry * list (CommunicationTopic * nat)) :=
  em_subscribe r em_sub_name em_topics.

(** The registry part of [EventManager.cleanup]: [q.put(None)] for every
    recorded queue, then [unsubscribe(name="event_manager", topic=topic)]
    for every recorded topic. *)
Definition em_cleanup (r : Registry) (subq : list (CommunicationTopic * nat)) : Registry :=
  let r1 := mkRegistry (sub_list r)
              (fold_left (fun h tq => queue_append h tq.2 PNone) subq (reg_queues r))
              (reg_next_q r) in
  fold_left (fun r tq => unsubscribe r "event_manager" tq.1) subq r1.

(** [EventManager.publish(topic, message)] for a [PubSubMessage]
    [message] (an instance, hence true, with a [sender] for the log line):
    forwarded to [self.pubsub.publish] unless the topic is [UNKNOWN]. *)
Definition em_publish (r : Registry) (topic : CommunicationTopic) (message : pyval) : Registry :=
  if negb (bool_decide (topic = UNKNOWN)) && py_truthy message then publish r topic message
  else r.

(* ================================================================= *)
(** ** Well-formed registries *)

(** A [pubsub_module.PubSubWithQueue]: every subscription has an id below
    [next_sub_id] and a queue that exists, no topic maps to an empty dict,
    and every queue was allocated. *)
Definition ps_wf (ps : PubSub) : Prop :=
  (forall t subs, ps_topics ps !! t = Some subs ->
     subs <> ∅ /\
     map_Forall (fun (sid : Z) (q : nat) => Z.lt sid (ps_next_sub_id ps) /\
                   Nat.lt q (ps_next_q ps) /\ is_Some (ps_queues ps !! q)) subs) /\
  (forall q, is_Some (ps_queues ps !! q) -> Nat.lt q (ps_next_q ps)).

(** A [demo.PubSubWithQueue]: no subscription under [UNKNOWN] or the empty
    name, no topic mapping to an empty dict, every subscribed queue
    allocated. *)
Definition reg_wf (r : Registry) : Prop :=
  (forall t subs, sub_list r !! t = Some subs ->
     t <> UNKNOWN /\ subs <> ∅ /\ subs !! ""%string = None /\
     map_Forall (fun (_ : string) (q : nat) => Nat.lt q (reg_next_q r) /\
                   is_Some (reg_queues r !! q)) subs) /\
  (forall q, is_Some (reg_queues r !! q) -> Nat.lt q (reg_next_q r)).

(* ================================================================= *)
(** * Proofs *)

(* ----------------------------------------------------------------- *)
(** ** Python values and [json] *)

(** Induction over [pyval] that goes through the nested lists. *)
Definition pyval_ind' (P : pyval -> Prop)
  (HNone : P PNone) (HBool : forall b, P (PBool b)) (HInt : forall z, P (PInt z))
  (HFloat : forall f, P (PFloat f)) (HStr : forall s, P (PStr s))
  (HList : forall xs, Forall P xs -> P (PList xs))
  (HTuple : forall xs, Forall P xs -> P (PTuple xs))
  (HDict : forall kvs, Forall (fun kv => P kv.1 /\ P kv.2) kvs -> P (PDict kvs))
  (HObject : forall n, P (PObject n)) : forall v, P v :=
  fix go (v : pyval) : P v :=
    match v with
    | PNone => HNone
    | PBool b => HBool b
    | PInt z => HInt z
    | PFloat f => HFloat f
    | PStr s => HStr s
    | PList xs =>
        HList xs ((fix items (xs : list pyval) : Forall P xs :=
                     match xs with
                     | [] => @Forall_nil _ _
                     | x :: xs' => @Forall_cons pyval P x xs' (go x) (items xs')
                     end) xs)
    | PTuple xs =>
        HTuple xs ((fix items (xs : list pyval) : Forall P xs :=
                      match xs with
                      | [] => @Forall_nil _ _
                      | x :: xs' => @Forall_cons pyval P x xs' (go x) (items xs')
                      end) xs)
    | PDict kvs =>
        HDict kvs ((fix pairs (kvs : list (pyval * pyval))
                      : Forall (fun kv => P kv.1 /\ P kv.2) kvs :=
                      match kvs with
                      | [] => @Forall_nil _ _
                      | (k, x) :: kvs' =>
                          @Forall_cons _ (fun kv => P kv.1 /\ P kv.2) (k, x) kvs'
                            (conj (go k) (go x)) (pairs kvs')
                      end) kvs)
    | PObject n => HObject n
    end.

Lemma py_eqb_str s x : py_eqb (PStr s) x = true <-> x = PStr s.
Proof.
  destruct x; simpl; split; intros H; try discriminate; try congruence.
  - apply String.eqb_eq in H. congruence.
  - inversion H; subst. apply String.eqb_refl.
Qed.

Lemma SFeqb_finite_refl s m e : SFeqb (S754_finite s m e) (S754_finite s m e) = true.
Proof.
  unfold SFeqb, SFcompare. rewrite Z.compare_refl, Pos.compare_cont_refl.
  destruct s; reflexivity.
Qed.

Lemma traverse_str_key (kvs : list (pyval * pyval)) ks :
  traverse str_key (map fst kvs) = Some ks -> map fst kvs = map PStr ks.
Proof.
  revert ks. induction kvs as [|[k v] kvs IH]; intros ks H; simpl in *.
  - inversion H. reflexivity.
  - destruct k; try discriminate. simpl in H.
    destruct (traverse str_key (map fst kvs)) as [ks'|]; inversion H; subst.
    simpl. f_equal. apply IH. reflexivity.
Qed.

Lemma distinct_strs_NoDup ks : distinct_strs ks = true -> NoDup ks.
Proof.
  induction ks as [|s ks IH]; simpl; intros H.
  - constructor.
  - apply andb_prop in H as [H1 H2]. constructor; [|auto].
    intros Hin. apply negb_true_iff in H1.
    assert (existsb (String.eqb s) ks = true) as Hc.
    { apply existsb_exists. exists s. split; [apply list_elem_of_In; exact Hin|apply String.eqb_refl]. }
    congruence.
Qed.

Lemma dict_setitem_fresh (d : list (pyval * pyval)) k v :
  (forall kv, In kv d -> py_eqb k kv.1 = false) -> dict_setitem d k v = d ++ [(k, v)].
Proof.
  induction d as [|[k' v'] d IH]; intros H; simpl; [reflexivity|].
  pose proof (H (k', v') (or_introl eq_refl)) as Hk. simpl in Hk.
  rewrite Hk. f_equal.
  apply IH. intros kv Hin. apply H. right. exact Hin.
Qed.

Lemma fold_setitem_fresh (l : list (string * pyval)) (acc : list (pyval * pyval)) :
  NoDup (map fst l) ->
  (forall kv s, In kv acc -> In s (map fst l) -> kv.1 <> PStr s) ->
  fold_left (fun d kv => dict_setitem d (PStr kv.1) kv.2) l acc
  = acc ++ map (fun kv => (PStr kv.1, kv.2)) l.
Proof.
  revert acc. induction l as [|[s v] l IH]; intros acc Hnd Hfr; simpl.
  - rewrite app_nil_r. reflexivity.
  - inversion Hnd as [|? ? Hnotin Hnd']; subst.
    rewrite dict_setitem_fresh.
    + rewrite IH; [rewrite <- app_assoc; reflexivity|exact Hnd'|].
      intros kv s' Hin Hs'. apply in_app_or in Hin as [Hin|[<-|[]]].
      * apply (Hfr kv s'); [exact Hin|right; exact Hs'].
      * simpl. intros [= ->]. apply Hnotin, list_elem_of_In. exact Hs'.
    + intros kv Hin. destruct (py_eqb (PStr s) kv.1) eqn:E; [|reflexivity].
      apply py_eqb_str in E. exfalso. apply (Hfr kv s Hin); [left; reflexivity|exact E].
Qed.

Lemma find_key_nodup (kvs : list (pyval * pyval)) s v :
  NoDup (map fst kvs) -> In (PStr s, v) kvs -> find_key (py_eqb (PStr s)) kvs = Some v.
Proof.
  induction kvs as [|[k w] kvs IH]; intros Hnd Hin; [destruct Hin|].
  cbn -[py_eqb]. cbn in Hnd.
  inversion Hnd as [|? ? Hnotin Hnd']; subst.
  destruct Hin as [[= -> ->]|Hin].
  - rewrite (proj2 (py_eqb_str s (PStr s)) eq_refl). reflexivity.
  - destruct (py_eqb (PStr s) k) eqn:E.
    + apply py_eqb_str in E. subst k. exfalso. apply Hnotin, list_elem_of_In.
      apply (in_map fst) in Hin. exact Hin.
    + apply IH; assumption.
Qed.

Lemma NoDup_map_PStr (ks : list string) : NoDup ks -> NoDup (map PStr ks).
Proof.
  induction 1 as [|s ks Hnotin Hnd IH]; simpl; constructor; [|exact IH].
  intros Hin. apply list_elem_of_In, in_map_iff in Hin as (s' & [= ->] & Hin).
  apply Hnotin, list_elem_of_In. exact Hin.
Qed.

Section JsonRoundtrip.
Variable json_floatstr : pyfloat -> string.
Variable int_repr : Z -> string.

Let RT (v : pyval) : Prop :=
  json_native v = true ->
  (exists j, to_json json_floatstr int_repr v = Some j /\ of_json j = v) /\
  py_eqb v v = true.

Lemma items_roundtrip (xs : list pyval) :
  Forall RT xs -> forallb json_native xs = true ->
  (exists js, traverse (to_json json_floatstr int_repr) xs = Some js /\ map of_json js = xs) /\
  seq_eqb py_eqb xs xs = true.
Proof.
  induction 1 as [|x xs Hx Hxs IH]; simpl; intros Hn.
  - split; [exists []; split; reflexivity|reflexivity].
  - apply andb_prop in Hn as [Hn1 Hn2].
    destruct (Hx Hn1) as [[j [Hj Hoj]] Hr]. destruct (IH Hn2) as [[js [Hjs Hojs]] Hrs].
    rewrite Hj, Hjs, Hr, Hrs. split; [|reflexivity].
    exists (j :: js). split; [reflexivity|]. simpl. congruence.
Qed.

Lemma members_roundtrip (kvs : list (pyval * pyval)) (ks : list string) :
  Forall (fun kv => RT kv.2) kvs -> map fst kvs = map PStr ks ->
  forallb (fun kv => json_native kv.2) kvs = true ->
  exists js,
    traverse (fun kv => match json_key json_floatstr int_repr kv.1,
                              to_json json_floatstr int_repr kv.2 with
                        | Some s, Some j => Some (s, j)
                        | _, _ => None
                        end) kvs = Some js /\
    map fst js = ks /\ map (fun kj => (PStr kj.1, of_json kj.2)) js = kvs /\
    Forall (fun kv => py_eqb kv.2 kv.2 = true) kvs.
Proof.
  intros Hall. revert ks. induction Hall as [|[k v] kvs Hv Hkvs IH]; intros ks Hks Hn.
  - destruct ks; [|discriminate]. exists []. repeat split. constructor.
  - destruct ks as [|s ks]; [discriminate|]. simpl in Hks. injection Hks as -> Hks.
    simpl in Hn. apply andb_prop in Hn as [Hn1 Hn2].
    destruct (Hv Hn1) as [[j [Hj Hoj]] Hr]. simpl in Hj, Hoj, Hr.
    destruct (IH ks Hks Hn2) as (js & Hjs & Hfst & Hmap & Hrs).
    exists ((s, j) :: js). simpl. rewrite Hj, Hjs. repeat split.
    + simpl. congruence.
    + simpl. congruence.
    + constructor; assumption.
Qed.

Lemma native_roundtrip (v : pyval) : RT v.
Proof.
  induction v as [| b | z | f | s | xs IH | xs IH | kvs IH | n] using pyval_ind';
    unfold RT; simpl; intros Hn; try discriminate.
  - split; [exists JNull; split; reflexivity|reflexivity].
  - split; [exists (JBool b); split; reflexivity|apply Z.eqb_refl].
  - split; [exists (JInt z); split; reflexivity|apply Z.eqb_refl].
  - split; [exists (JFloat f); split; reflexivity|exact Hn].
  - split; [exists (JStr s); split; reflexivity|apply String.eqb_refl].
  - destruct (items_roundtrip xs IH Hn) as [[js [Hjs Hojs]] Hr].
    rewrite Hjs, Hr. split; [|reflexivity].
    exists (JArray js). split; [reflexivity|]. simpl. congruence.
  - apply andb_prop in Hn as [Hks Hn].
    destruct (traverse str_key (map fst kvs)) as [ks|] eqn:Etr; [|discriminate].
    apply traverse_str_key in Etr. apply distinct_strs_NoDup in Hks.
    assert (Forall (fun kv => RT kv.2) kvs) as IH2.
    { rewrite Forall_forall in IH |- *. intros kv Hin. apply (IH kv Hin). }
    destruct (members_roundtrip kvs ks IH2 Etr Hn) as (js & Hjs & Hfst & Hmap & Hrs).
    assert (NoDup (map fst kvs)) as Hnd.
    { rewrite Etr. apply NoDup_map_PStr. exact Hks. }
    split.
    + rewrite Hjs. exists (JObject js). split; [reflexivity|]. simpl.
      rewrite fold_setitem_fresh.
      * simpl. rewrite map_map. simpl. f_equal. exact Hmap.
      * rewrite map_map. rewrite <- Hfst in Hks. exact Hks.
      * intros kv s' [].
    + rewrite Nat.eqb_refl. simpl. apply forallb_forall. intros [k v] Hin.
      assert (In k (map fst kvs)) as Hk by (apply (in_map fst) in Hin; exact Hin).
      rewrite Etr in Hk. apply in_map_iff in Hk as (s & <- & _).
      cbn -[py_eqb find_key]. rewrite (find_key_nodup kvs s v Hnd Hin).
      rewrite Forall_forall in Hrs. apply (Hrs (PStr s, v) Hin).
Qed.
End JsonRoundtrip.

(* ----------------------------------------------------------------- *)
(** ** C1: the [MessageSerializer] round trip *)

(** C1 (amended). For a message built by [Message(kind, payload)] with a
    string kind and a payload made of values [json] reads back as
    themselves ([None], [bool], [int], non-NaN [float], [str], lists and
    dicts with distinct string keys), [deserialize (serialize e)] gives back
    [e], equal to it field by field under Python's [==]. *)
Theorem message_roundtrip_json_native
  (json_floatstr : pyfloat -> string) (int_repr : Z -> string)
  (float_fixed6 : pyfloat -> string) (int_fixed6 : Z -> string)
  (kind : string) (pl : pyval) (env env' : Env) (e : Message) :
  json_native pl = true ->
  SFeqb (now env) (now env) = true ->
  Message_make int_repr float_fixed6 int_fixed6 (PStr kind) pl env = Some e ->
  exists j e',
    serialize json_floatstr int_repr e = Some j /\
    deserialize int_repr float_fixed6 int_fixed6 j env' = Some e' /\
    e' = e /\ Message_eqb e e' = true.
Proof.
  intros Hpl Hnow Hmk.
  unfold Message_make, Message_new in Hmk. simpl in Hmk. injection Hmk as <-.
  destruct (native_roundtrip json_floatstr int_repr pl Hpl) as [_ Hplr].
  set (e := {| type := PStr kind; payload := pl; timestamp := PFloat (now env);
               message_id := PStr (float_fixed6 (now env) ++ "_" ++ int_repr (ident env)) |}).
  assert (json_native (to_dict e) = true) as Hd.
  { simpl. rewrite Hpl, Hnow. reflexivity. }
  destruct (native_roundtrip json_floatstr int_repr (to_dict e) Hd) as [[j [Hj Hoj]] _].
  exists j, e. unfold serialize, deserialize. rewrite Hj, Hoj.
  split; [reflexivity|]. split; [|split; [reflexivity|]].
  - reflexivity.
  - unfold Message_eqb. simpl. rewrite !String.eqb_refl, Hplr, Hnow. reflexivity.
Qed.

(** C1 counterexample. A payload holding a tuple: [json] writes it as an
    array and reads it back as a list, and [(1, 2) == [1, 2]] is false in
    Python, so the decoded message is not equal to the original. *)
Lemma message_roundtrip_tuple_payload :
  let fmt := fun _ : pyfloat => "1.500000"%string in
  let zrepr := fun _ : Z => "7"%string in
  exists e j e',
    Message_make zrepr fmt zrepr (PStr "status")
      (PDict [(PStr "pos", PTuple [PInt 1; PInt 2])])
      (mkEnv (S754_finite false 3 (-1)) 7) = Some e /\
    serialize fmt zrepr e = Some j /\
    deserialize zrepr fmt zrepr j (mkEnv (S754_finite false 1 1) 8) = Some e' /\
    payload e' = PDict [(PStr "pos", PList [PInt 1; PInt 2])] /\
    Message_eqb e e' = false.
Proof.
  intros fmt zrepr. do 3 eexists. split; [reflexivity|]. split; [reflexivity|].
  split; [reflexivity|]. split; reflexivity.
Qed.

(* ----------------------------------------------------------------- *)
(** ** [CommunicationQueue.put] *)

Definition no_base_exception (m : Message) (hs : list Hook) : Prop :=
  Forall (fun h => hook_call h m <> HookRaisesBaseException) hs.

Lemma run_hooks_no_base qname hs m :
  no_base_exception m hs -> run_hooks qname hs m = (hook_trace qname hs m, None).
Proof.
  induction 1 as [|h hs Hh Hhs IH]; simpl; [reflexivity|].
  rewrite IH. destruct (hook_call h m); [reflexivity|reflexivity|contradiction].
Qed.

Lemma run_hooks_exn qname hs m evs e :
  run_hooks qname hs m = (evs, Some e) -> exists h, e = HookBaseException h.
Proof.
  revert evs. induction hs as [|h hs IH]; simpl; intros evs H; [discriminate|].
  destruct (hook_call h m).
  - destruct (run_hooks qname hs m) as [evs' r] eqn:E. inversion H; subst.
    apply (IH evs'). reflexivity.
  - destruct (run_hooks qname hs m) as [evs' r] eqn:E. inversion H; subst.
    apply (IH evs'). reflexivity.
  - inversion H. eexists. reflexivity.
Qed.

Lemma queue_put_ok mx l m block timeout l' :
  queue_put mx l m block timeout = QPutOk l' -> l' = l ++ [m].
Proof.
  unfold queue_put.
  destruct (Z.ltb 0 mx), block, timeout as [t|], (Z.leb mx (Z.of_nat (length l)));
    simpl; try destruct (SFltb t (S754_zero false)); intros H; inversion H; reflexivity.
Qed.

Lemma put_enqueued q m block timeout l :
  type_rejected q m = false ->
  queue_put (maxsize q) (items q) m block timeout = QPutOk l ->
  no_base_exception m (hooks_for q (type m)) ->
  put q m block timeout = (set_items q l, hook_trace (name q) (hooks_for q (type m)) m,
                           PutReturn true).
Proof.
  intros Hrej Hq Hh. unfold put. rewrite Hrej, Hq.
  unfold hooks_for in *. destruct (hooks_get (hooks q) (type m)) as [hs|].
  - rewrite run_hooks_no_base by exact Hh. reflexivity.
  - reflexivity.
Qed.

Lemma queue_put_nonblocking_room mx l m :
  (mx <= 0 \/ Z.of_nat (length l) < mx) ->
  queue_put mx l m false None = QPutOk (l ++ [m]).
Proof.
  intros H. unfold queue_put.
  destruct (Z.ltb_spec 0 mx); [|reflexivity].
  destruct (Z.leb_spec mx (Z.of_nat (length l))); [lia|reflexivity].
Qed.

Lemma drain_items n q :
  length (items q) = n -> snd (drain n q) = map Some (items q).
Proof.
  revert q. induction n as [|n IH]; intros q Hlen; simpl.
  - destruct (items q); [reflexivity|discriminate].
  - unfold get. simpl. destruct (items q) as [|x l] eqn:E; [discriminate|].
    simpl in Hlen.
    destruct (drain n (set_items q l)) as [q'' rs] eqn:Ed. simpl. f_equal.
    specialize (IH (set_items q l) ltac:(simpl; lia)). rewrite Ed in IH. simpl in IH.
    exact IH.
Qed.

Lemma hooks_get_append_str (hs : list (pyval * list Hook)) s cb :
  hooks_get (hooks_append hs (PStr s) cb) (PStr s)
  = Some (match hooks_get hs (PStr s) with Some l => l | None => [] end ++ [cb]).
Proof.
  unfold hooks_get. induction hs as [|[k l] hs IH]; cbn -[py_eqb].
  - rewrite (proj2 (py_eqb_str s (PStr s)) eq_refl). reflexivity.
  - destruct (py_eqb (PStr s) k) eqn:E; cbn -[py_eqb]; rewrite ?E; [reflexivity|].
    exact IH.
Qed.

(** C3. A queue of capacity [K > 0] holding [K] messages: a further
    [put(m, block=False)] of an admitted message returns [False], adds
    exactly one to [dropped_count], raises nothing, and leaves the queued
    messages as they were, so [m] is not in the queue for any later [get]
    to return. *)
Theorem put_full_nonblocking_drops (q : CommunicationQueue) (m : Message)
  (timeout : option pyfloat) :
  0 < maxsize q ->
  Z.of_nat (length (items q)) = maxsize q ->
  type_rejected q m = false ->
  put q m false timeout
  = (set_dropped q (dropped_count q + 1), [EvDropped (name q) m], PutReturn false) /\
  items (set_dropped q (dropped_count q + 1)) = items q /\
  dropped_count (set_dropped q (dropped_count q + 1)) = dropped_count q + 1.
Proof.
  intros Hpos Hfull Hrej. split; [|split; reflexivity].
  unfold put. rewrite Hrej. unfold queue_put.
  rewrite (proj2 (Z.ltb_lt 0 (maxsize q)) Hpos). simpl.
  rewrite Hfull, Z.leb_refl. reflexivity.
Qed.

Lemma put_full_nonblocking_drops_witness :
  let m := mkMessage (PStr "tick") (PDict []) (PFloat (S754_zero false)) (PStr "0") in
  let q := set_items (CommunicationQueue_init 2 "comm_queue" None) [m; m] in
  (0 < maxsize q /\ Z.of_nat (length (items q)) = maxsize q /\ type_rejected q m = false) /\
  put q m false None
  = (set_dropped q (dropped_count q + 1), [EvDropped (name q) m], PutReturn false) /\
  items (set_dropped q (dropped_count q + 1)) = items q /\
  dropped_count (set_dropped q (dropped_count q + 1)) = dropped_count q + 1.
Proof.
  intros m q. split; [vm_compute; split; [reflexivity|split; reflexivity]|].
  apply put_full_nonblocking_drops; vm_compute; reflexivity.
Defined.

(** C8. With an allow-list given at construction that is non-empty and
    does not contain the message's kind, [put] raises the [ValueError] of
    the type check (the spec's [RejectedKind]) and leaves the queue, its drop
    count and the hooks untouched; with no allow-list or an empty one, [put]
    never raises that error. *)
Theorem put_type_filter (mt : option (list pyval)) (q : CommunicationQueue)
  (m : Message) (block : bool) (timeout : option pyfloat) :
  message_types q = init_message_types mt ->
  ((exists ts, mt = Some ts /\ ts <> [] /\ existsb (py_eqb (type m)) ts = false) ->
   put q m block timeout = (q, [], PutRaise ValueErrorUnsupportedType)) /\
  ((mt = None \/ mt = Some []) ->
   snd (put q m block timeout) <> PutRaise ValueErrorUnsupportedType).
Proof.
  intros Hmt. split.
  - intros (ts & -> & Hne & Hnot).
    assert (type_rejected q m = true) as Hr.
    { unfold type_rejected. rewrite Hmt. destruct ts as [|t ts]; [contradiction|].
      change (negb (existsb (py_eqb (type m)) (t :: ts)) = true).
      rewrite Hnot. reflexivity. }
    unfold put. rewrite Hr. reflexivity.
  - intros Hempty. unfold put.
    assert (type_rejected q m = false) as Hr.
    { unfold type_rejected. rewrite Hmt. destruct Hempty as [-> | ->]; reflexivity. }
    rewrite Hr.
    destruct (queue_put (maxsize q) (items q) m block timeout); simpl; try discriminate.
    destruct (hooks_get (hooks q) (type m)) as [hs|]; simpl; [|discriminate].
    destruct (run_hooks (name q) hs m) as [evs [e|]] eqn:E; simpl; [|discriminate].
    apply run_hooks_exn in E as [h ->]. discriminate.
Qed.

(** C9. When [put] enqueues its message (the type check passes and
    [queue.Queue.put] succeeds), every hook registered for the kind is
    called in registration order, a hook raising an [Exception] is caught
    and printed without stopping the others, [put] returns [True], and the
    message is returned by the [get] that follows the messages queued
    before it. Registration appends a hook after those already there. *)
Theorem put_hooks_isolated (q : CommunicationQueue) (m : Message) (block : bool)
  (timeout : option pyfloat) (l : list Message) :
  type_rejected q m = false ->
  queue_put (maxsize q) (items q) m block timeout = QPutOk l ->
  no_base_exception m (hooks_for q (type m)) ->
  put q m block timeout
  = (set_items q (items q ++ [m]), hook_trace (name q) (hooks_for q (type m)) m,
     PutReturn true) /\
  snd (drain (S (length (items q))) (set_items q (items q ++ [m])))
  = map Some (items q) ++ [Some m] /\
  (forall s cb, hooks_for (register_hook q (PStr s) cb) (PStr s) = hooks_for q (PStr s) ++ [cb]).
Proof.
  intros Hrej Hq Hh. split; [|split].
  - rewrite (put_enqueued q m block timeout l Hrej Hq Hh).
    apply queue_put_ok in Hq. subst l. reflexivity.
  - rewrite drain_items; simpl.
    + rewrite map_app. reflexivity.
    + rewrite length_app. simpl. lia.
  - intros s cb. unfold hooks_for, register_hook. simpl.
    rewrite hooks_get_append_str. reflexivity.
Qed.

Lemma put_hooks_isolated_witness :
  let m := mkMessage (PStr "status_update") (PDict []) (PFloat (S754_zero false)) (PStr "0") in
  let bad := mkHook 1 (fun _ => HookRaisesException) in
  let good := mkHook 2 (fun _ => HookReturns) in
  let q := register_hook (register_hook (CommunicationQueue_init 10 "comm_queue" None)
                            (PStr "status_update") bad) (PStr "status_update") good in
  put q m true None
  = (set_items q [m],
     [EvHookCalled 1 m; EvHookFailed "comm_queue" 1; EvHookCalled 2 m], PutReturn true) /\
  snd (drain 1 (set_items q [m])) = [Some m].
Proof.
  intros m bad good q.
  destruct (put_hooks_isolated q m true None [m]) as [H1 [H2 _]].
  - reflexivity.
  - reflexivity.
  - repeat constructor; discriminate.
  - split; [exact H1|exact H2].
Defined.

(* ----------------------------------------------------------------- *)
(** ** [CommunicationQueue.get_by_type] *)

Definition quiet_turns (n : nat) : list gbt_turn := repeat (mkTurn false None) n.

Lemma if_same_timeout {A} (timeout : option pyfloat) (x y : A) :
  (if match timeout with Some _ => expired (mkTurn false None) | None => false end
   then x else y) = y.
Proof. destruct timeout; reflexivity. Qed.

Lemma get_head q block x l :
  items q = x :: l -> get q block (poll_timeout block) = (set_items q l, GetReturn (Some x)).
Proof.
  intros E. unfold get. rewrite E. destruct block; reflexivity.
Qed.

Lemma type_rejected_set_items q l m : type_rejected (set_items q l) m = type_rejected q m.
Proof. reflexivity. Qed.

Lemma hooks_for_set_items q l t : hooks_for (set_items q l) t = hooks_for q t.
Proof. reflexivity. Qed.

(** The scan with no other thread and no timeout firing: each skipped
    message goes to the tail, the first match is returned. *)
Lemma get_by_type_rotate (pre : list Message) :
  forall (q : CommunicationQueue) (t : pyval) (block : bool) (timeout : option pyfloat)
    (m : Message) (rest : list Message) (n : nat),
  items q = pre ++ m :: rest ->
  Forall (fun x => py_eqb (type x) t = false) pre ->
  py_eqb (type m) t = true ->
  (maxsize q <= 0 \/ Z.of_nat (length (items q)) <= maxsize q) ->
  Forall (fun x => type_rejected q x = false) pre ->
  Forall (fun x => no_base_exception x (hooks_for q (type x))) pre ->
  (length pre < n)%nat ->
  exists evs, get_by_type q t block timeout (quiet_turns n)
              = (set_items q (rest ++ pre), evs, GbtReturn (Some m)).
Proof.
  induction pre as [|p pre IH];
    intros q t block timeout m rest n Hit Hskip Hm Hcap Hadm Hhk Hn;
    (destruct n as [|n]; [simpl in Hn; lia|]); simpl.
  - rewrite (if_same_timeout timeout).
    rewrite (get_head q block m rest Hit), Hm.
    exists []. rewrite app_nil_r. reflexivity.
  - rewrite (if_same_timeout timeout).
    rewrite (get_head q block p (pre ++ m :: rest) Hit).
    inversion Hskip as [|? ? Hp Hskip']; subst. rewrite Hp.
    inversion Hadm as [|? ? Hpa Hadm']; subst.
    inversion Hhk as [|? ? Hph Hhk']; subst.
    simpl other_thread_put.
    rewrite (put_enqueued (set_items q (pre ++ m :: rest)) p false None
               ((pre ++ m :: rest) ++ [p])).
    + destruct (IH (set_items (set_items q (pre ++ m :: rest)) ((pre ++ m :: rest) ++ [p]))
                  t block timeout m (rest ++ [p]) n) as [evs Hevs].
      * simpl. rewrite <- app_assoc. reflexivity.
      * exact Hskip'.
      * exact Hm.
      * simpl. rewrite Hit in Hcap. rewrite !length_app in *. simpl in *. lia.
      * exact Hadm'.
      * exact Hhk'.
      * simpl in Hn. lia.
      * change (repeat (mkTurn false None) n) with (quiet_turns n). rewrite Hevs.
        eexists. rewrite <- (app_assoc rest [p] pre). reflexivity.
    + exact Hpa.
    + simpl. apply queue_put_nonblocking_room.
      rewrite Hit in Hcap. rewrite !length_app in *. simpl in *. lia.
    + exact Hph.
Qed.

(** When no other thread uses the queue during the call and no timeout
    fires, [get_by_type t] returns the first queued message of
    kind [t] and leaves the queue as the messages after it followed by the
    skipped ones, in their original order; the drop count is unchanged, so
    no skipped message is lost. (The queue is within its capacity and holds
    only admitted messages, as [put] leaves it; the skipped messages' hooks
    run again and raise no [BaseException].) *)
Theorem get_by_type_first_match_requeues (q : CommunicationQueue) (t : pyval)
  (block : bool) (timeout : option pyfloat) (pre post : list Message) (m : Message)
  (n : nat) :
  items q = pre ++ m :: post ->
  Forall (fun x => py_eqb (type x) t = false) pre ->
  py_eqb (type m) t = true ->
  (maxsize q <= 0 \/ Z.of_nat (length (items q)) <= maxsize q) ->
  Forall (fun x => type_rejected q x = false) pre ->
  Forall (fun x => no_base_exception x (hooks_for q (type x))) pre ->
  (length pre < n)%nat ->
  exists q' evs,
    get_by_type q t block timeout (quiet_turns n) = (q', evs, GbtReturn (Some m)) /\
    items q' = post ++ pre /\ dropped_count q' = dropped_count q.
Proof.
  intros Hit Hskip Hm Hcap Hadm Hhk Hn.
  destruct (get_by_type_rotate pre q t block timeout m post n Hit Hskip Hm Hcap Hadm Hhk Hn)
    as [evs Hevs].
  exists (set_items q (post ++ pre)), evs. repeat split; [exact Hevs].
Qed.

Lemma get_by_type_first_match_requeues_witness :
  let mk k i := mkMessage (PStr k) (PDict []) (PFloat (S754_zero false)) (PStr i) in
  let q := set_items (CommunicationQueue_init 3 "comm_queue" None)
             [mk "a" "1"; mk "c" "2"; mk "b" "3"] in
  exists q' evs,
    get_by_type q (PStr "b") true None (quiet_turns 3) = (q', evs, GbtReturn (Some (mk "b" "3"))) /\
    items q' = [] ++ [mk "a" "1"; mk "c" "2"] /\ dropped_count q' = dropped_count q.
Proof.
  intros mk q.
  apply (get_by_type_first_match_requeues q (PStr "b") true None
           [mk "a" "1"; mk "c" "2"] [] (mk "b" "3") 3).
  - reflexivity.
  - repeat constructor.
  - reflexivity.
  - right. vm_compute. discriminate.
  - repeat constructor.
  - repeat constructor.
  - simpl. lia.
Defined.

(** C4 (code defect). [get_by_type] means to put every skipped message
    back, but does it with [put(msg, block=False)] and ignores the result.
    Capacity 1, one queued message [A] of kind ["a"], [get_by_type("b")]:
    it takes [A]; another thread puts [B] of kind ["b"] into the slot just
    freed; the put-back finds the queue full and drops [A]. The call
    returns [B] and [A] is gone from the queue for good (only counted in
    [dropped_count]). *)
Lemma get_by_type_loses_skipped :
  let mk k i := mkMessage (PStr k) (PDict []) (PFloat (S754_zero false)) (PStr i) in
  let q := set_items (CommunicationQueue_init 1 "comm_queue" None) [mk "a" "A"] in
  get_by_type q (PStr "b") true None [mkTurn false (Some (mk "b" "B")); mkTurn false None]
  = (set_dropped (set_items q []) 1, [EvDropped "comm_queue" (mk "a" "A")],
     GbtReturn (Some (mk "b" "B"))) /\
  ~ In (mk "a" "A") (items (set_dropped (set_items q []) 1)).
Proof. split; [reflexivity|simpl; tauto]. Qed.

(* ----------------------------------------------------------------- *)
(** ** The consumer threads of src/pubsub_module.py *)

(** C5 (code defect). The consumer loop of [pubsub_module.PubSubWithQueue]
    has no [try] around [consumer_callback(msg)]: with a callback that
    raises on the first message, the thread dies there and the second
    message, still in the queue, is never handled. *)
Lemma consumer_dies_on_callback_exception :
  let cb := fun v => if py_eqb v (PStr "msg1") then CbRaises else CbReturns in
  consumer_run 5 cb [PStr "msg1"; PStr "msg2"] = (CDied, [PStr "msg2"], [PStr "msg1"]).
Proof. reflexivity. Qed.

Lemma consumer_run_sentinel n cb l :
  Forall (fun x => is_none x = false /\ cb x = CbReturns) l ->
  (length l < n)%nat ->
  consumer_run n cb (l ++ [PNone]) = (CFinished, [], l).
Proof.
  revert n. induction l as [|x l IH]; intros n Hl Hn; (destruct n as [|n]; [simpl in Hn; lia|]).
  - reflexivity.
  - inversion Hl as [|? ? [Hx Hcb] Hl']; subst. simpl.
    rewrite Hx, Hcb, IH by (simpl in Hn; lia || exact Hl'). reflexivity.
Qed.

(** C7. [unsubscribe(topic, sub_id, q)] on a live subscription, called
    with the subscription's own queue: [None] is now the last item of the
    queue and [(topic, sub_id)] is no longer registered. The consumer
    thread, even one blocked on an empty queue, handles the messages still
    queued and leaves its loop on taking [None]; a consumer that takes
    [None] stops there, whatever follows it in the queue. *)
Theorem unsubscribe_stops_consumer (ps : PubSub) (topic : string) (sub_id : Z) (q : nat)
  (subs : gmap Z nat) (l : list pyval) (cb : pyval -> callback_outcome) :
  ps_topics ps !! topic = Some subs ->
  subs !! sub_id = Some q ->
  ps_queues ps !! q = Some l ->
  Forall (fun x => is_none x = false /\ cb x = CbReturns) l ->
  let ps' := ps_unsubscribe ps topic sub_id q in
  ps_queues ps' !! q = Some (l ++ [PNone]) /\
  (ps_topics ps' !! topic ≫= (fun s => s !! sub_id)) = None /\
  consumer_run (S (length l)) cb (l ++ [PNone]) = (CFinished, [], l) /\
  (forall n rest, consumer_run (S n) cb (PNone :: rest) = (CFinished, rest, [])).
Proof.
  intros Ht Hs Hq Hl ps'. unfold ps', ps_unsubscribe. rewrite Ht, Hs. cbn [ps_queues ps_topics].
  split; [|split; [|split]].
  - unfold queue_append. rewrite lookup_alter_eq, Hq. reflexivity.
  - case_decide as Hempty.
    + rewrite lookup_delete_eq. reflexivity.
    + rewrite lookup_insert_eq. simpl. apply lookup_delete_eq.
  - apply consumer_run_sentinel; [exact Hl|lia].
  - intros n rest. reflexivity.
Qed.

Lemma unsubscribe_stops_consumer_witness :
  let cb := fun _ : pyval => CbReturns in
  let ps := mkPubSub {["news" := {[1 := 0%nat]}]} 2 {[0%nat := [PStr "async message 1"]]} 1 in
  let ps' := ps_unsubscribe ps "news" 1 0 in
  ps_queues ps' !! 0%nat = Some ([PStr "async message 1"] ++ [PNone]) /\
  (ps_topics ps' !! "news"%string ≫= (fun s => s !! 1)) = None /\
  consumer_run 2 cb ([PStr "async message 1"] ++ [PNone])
  = (CFinished, [], [PStr "async message 1"]) /\
  (forall n rest, consumer_run (S n) cb (PNone :: rest) = (CFinished, rest, [])).
Proof.
  intros cb ps ps'.
  apply (unsubscribe_stops_consumer ps "news" 1 0 {[1 := 0%nat]} [PStr "async message 1"] cb).
  - reflexivity.
  - reflexivity.
  - reflexivity.
  - repeat constructor.
Defined.

(* ----------------------------------------------------------------- *)
(** ** Witnesses for C1 and C8 *)

Lemma message_roundtrip_json_native_witness :
  let fmt := fun _ : pyfloat => "1.500000"%string in
  let zrepr := fun _ : Z => "7"%string in
  let env := mkEnv (S754_finite false 3 (-1)) 7 in
  let pl := PDict [(PStr "a", PInt 1); (PStr "b", PList [PFloat (S754_finite false 1 1)])] in
  let e := mkMessage (PStr "status") pl (PFloat (now env)) (PStr "1.500000_7") in
  (json_native pl = true /\ SFeqb (now env) (now env) = true /\
   Message_make zrepr fmt zrepr (PStr "status") pl env = Some e) /\
  exists j e',
    serialize fmt zrepr e = Some j /\
    deserialize zrepr fmt zrepr j env = Some e' /\
    e' = e /\ Message_eqb e e' = true.
Proof.
  intros fmt zrepr env pl e.
  split; [split; [reflexivity|split; reflexivity]|].
  apply (message_roundtrip_json_native fmt zrepr fmt zrepr "status" pl env env e);
    reflexivity.
Defined.

Lemma put_type_filter_witness :
  let mt := Some [PStr "tick"] in
  let q := CommunicationQueue_init 2 "comm_queue" mt in
  let m := mkMessage (PStr "tock") (PDict []) (PFloat (S754_zero false)) (PStr "0") in
  message_types q = init_message_types mt /\
  ((exists ts, mt = Some ts /\ ts <> [] /\ existsb (py_eqb (type m)) ts = false) ->
   put q m false None = (q, [], PutRaise ValueErrorUnsupportedType)) /\
  ((mt = None \/ mt = Some []) ->
   snd (put q m false None) <> PutRaise ValueErrorUnsupportedType).
Proof.
  intros mt q m. split; [reflexivity|].
  apply (put_type_filter mt q m false None). reflexivity.
Defined.

(* ----------------------------------------------------------------- *)
(** ** C2: construction of a [Message] *)

(** C2 (amended). [Message(kind, payload)] checks nothing about [kind]:
    for every kind, the empty string included, and every payload,
    construction succeeds, with the current time as timestamp and the id
    [f"{timestamp:.6f}_{threading.get_ident()}"]. *)
Theorem message_make_any_kind
  (int_repr : Z -> string) (float_fixed6 : pyfloat -> string) (int_fixed6 : Z -> string)
  (kind pl : pyval) (env : Env) :
  Message_make int_repr float_fixed6 int_fixed6 kind pl env
  = Some (mkMessage kind pl (PFloat (now env))
            (PStr (float_fixed6 (now env) ++ "_" ++ int_repr (ident env)))).
Proof. reflexivity. Qed.

(** C2 counterexample. [Message("", {})] raises nothing: it returns a
    message whose kind is the empty string. *)
Lemma message_make_empty_kind :
  exists e,
    Message_make (fun _ => "7"%string) (fun _ => "0.000000"%string) (fun _ => "0.000000"%string)
      (PStr "") (PDict []) (mkEnv (S754_zero false) 7) = Some e /\
    type e = PStr "".
Proof. eexists. split; reflexivity. Qed.

(* ----------------------------------------------------------------- *)
(** ** C6 and C10: [subscribe] in src/demo.py *)

(** C6 (code bug). Subscribing the same name twice to a topic on which it
    is the only subscriber: the second call's [unsubscribe] puts [None] in
    the first queue and, the topic's dict being empty, deletes it from
    [sub_list]; [self.sub_list[topic][name] = q] then raises [KeyError].
    No queue is registered for the pair afterwards, the new queue is
    allocated but unreachable, and the first queue holds only the exit
    signal. *)
Lemma subscribe_twice_keyerror :
  let r1 := fst (subscribe Registry_init "s1" FROM_UI) in
  let r2 := fst (subscribe r1 "s1" FROM_UI) in
  snd (subscribe Registry_init "s1" FROM_UI) = SubReturn (Some 0%nat) /\
  sub_list r1 !! FROM_UI = Some {["s1" := 0%nat]} /\
  snd (subscribe r1 "s1" FROM_UI) = SubKeyError /\
  sub_list r2 !! FROM_UI = None /\
  reg_queues r2 !! 0%nat = Some [PNone] /\
  reg_queues r2 !! 1%nat = Some [].
Proof. vm_compute. repeat split. Qed.

(** C10. [subscribe] with an empty name or the topic [UNKNOWN] returns
    [None] and leaves the registry as it was. *)
Theorem subscribe_rejects_unchanged (r : Registry) (name : string)
  (topic : CommunicationTopic) :
  (name = ""%string \/ topic = UNKNOWN) ->
  subscribe r name topic = (r, SubReturn None).
Proof.
  intros H. unfold subscribe.
  destruct H as [-> | ->].
  - reflexivity.
  - rewrite orb_true_r. reflexivity.
Qed.

Lemma subscribe_rejects_unchanged_witness :
  let r := fst (subscribe Registry_init "s1" FROM_UI) in
  ((""%string = ""%string \/ FROM_UI = UNKNOWN) /\
   subscribe r "" FROM_UI = (r, SubReturn None)) /\
  (("s1"%string = ""%string \/ UNKNOWN = UNKNOWN) /\
   subscribe r "s1" UNKNOWN = (r, SubReturn None)).
Proof.
  intros r. split.
  - split; [left; reflexivity|].
    apply (subscribe_rejects_unchanged r "" FROM_UI). left. reflexivity.
  - split; [right; reflexivity|].
    apply (subscribe_rejects_unchanged r "s1" UNKNOWN). right. reflexivity.
Defined.

(* ================================================================= *)
(** * Further properties of the queue and the registries *)

(* ----------------------------------------------------------------- *)
(** ** [CommunicationQueue.put] *)

(** A non-blocking [put] of an admitted message whose hooks raise no
    [BaseException]: on a bounded queue that is full it counts a drop and
    returns [False]; otherwise it appends the message, runs the kind's
    hooks in order and returns [True]. The [timeout] is ignored. *)
Theorem put_nonblocking_exact (q : CommunicationQueue) (m : Message)
  (timeout : option pyfloat) :
  type_rejected q m = false ->
  no_base_exception m (hooks_for q (type m)) ->
  put q m false timeout =
    if (0 <? maxsize q) && (maxsize q <=? qsize q)
    then (set_dropped q (dropped_count q + 1), [EvDropped (name q) m], PutReturn false)
    else (set_items q (items q ++ [m]), hook_trace (name q) (hooks_for q (type m)) m,
          PutReturn true).
Proof.
  intros Hrej Hh. unfold qsize.
  destruct ((0 <? maxsize q) && (maxsize q <=? Z.of_nat (length (items q)))) eqn:E.
  - apply andb_prop in E as [E1 E2].
    unfold put. rewrite Hrej. unfold queue_put. rewrite E1, E2. reflexivity.
  - apply put_enqueued; [exact Hrej| |exact Hh].
    unfold queue_put. destruct (0 <? maxsize q); [|reflexivity].
    simpl in E. rewrite E. reflexivity.
Qed.

Lemma put_nonblocking_exact_witness :
  let m := mkMessage (PStr "tick") (PDict []) (PFloat (S754_zero false)) (PStr "0") in
  let q := CommunicationQueue_init 1 "comm_queue" None in
  (type_rejected q m = false /\ no_base_exception m (hooks_for q (type m))) /\
  put q m false None =
    (if (0 <? maxsize q) && (maxsize q <=? qsize q)
     then (set_dropped q (dropped_count q + 1), [EvDropped (name q) m], PutReturn false)
     else (set_items q (items q ++ [m]), hook_trace (name q) (hooks_for q (type m)) m,
           PutReturn true)).
Proof.
  intros m q. split; [split; [reflexivity|constructor]|].
  apply put_nonblocking_exact; [reflexivity|constructor].
Defined.

(** The blocking [put] of an admitted message, as [queue.Queue.put] does
    it: on a bounded queue a negative [timeout] raises [ValueError], which
    [put] does not catch, whether or not the queue is full, and nothing is
    counted as dropped; on a full bounded queue with no [timeout] it waits
    (with no other thread, for ever) and changes nothing; on an unbounded
    queue ([maxsize <= 0]) every [put] enqueues, whatever [block] and
    [timeout] are. *)
Theorem put_blocking_edges (q : CommunicationQueue) (m : Message) :
  type_rejected q m = false ->
  (forall t, 0 < maxsize q -> SFltb t (S754_zero false) = true ->
     put q m true (Some t) = (q, [], PutRaise ValueErrorNegativeTimeout)) /\
  (0 < maxsize q -> maxsize q <= qsize q -> put q m true None = (q, [], PutBlocked)) /\
  (maxsize q <= 0 -> no_base_exception m (hooks_for q (type m)) ->
     forall block timeout,
       put q m block timeout
       = (set_items q (items q ++ [m]), hook_trace (name q) (hooks_for q (type m)) m,
          PutReturn true)).
Proof.
  intros Hrej. split; [|split].
  - intros t Hpos Hneg. unfold put, queue_put. rewrite Hrej.
    rewrite (proj2 (Z.ltb_lt _ _) Hpos), Hneg. reflexivity.
  - intros Hpos Hfull. unfold put, queue_put, qsize in *. rewrite Hrej.
    rewrite (proj2 (Z.ltb_lt _ _) Hpos), (proj2 (Z.leb_le _ _) Hfull). reflexivity.
  - intros Hub Hh block timeout.
    apply put_enqueued; [exact Hrej| |exact Hh].
    unfold queue_put. rewrite (proj2 (Z.ltb_ge _ _) Hub). reflexivity.
Qed.

Lemma put_blocking_edges_witness :
  let m := mkMessage (PStr "tick") (PDict []) (PFloat (S754_zero false)) (PStr "0") in
  let q := set_items (CommunicationQueue_init 1 "comm_queue" None) [m] in
  type_rejected q m = false /\
  put q m true (Some (S754_finite true 1 0)) = (q, [], PutRaise ValueErrorNegativeTimeout) /\
  put q m true None = (q, [], PutBlocked).
Proof.
  intros m q. split; [reflexivity|].
  destruct (put_blocking_edges q m eq_refl) as [H1 [H2 _]].
  split; [apply H1; reflexivity | apply H2; vm_compute; [reflexivity|discriminate]].
Defined.

(* ----------------------------------------------------------------- *)
(** ** The capacity bound *)

Lemma queue_put_room mx l m block timeout l' :
  0 < mx -> queue_put mx l m block timeout = QPutOk l' -> Z.of_nat (length l) < mx.
Proof.
  intros Hpos. unfold queue_put. cbv zeta. rewrite (proj2 (Z.ltb_lt _ _) Hpos).
  destruct (Z.leb_spec mx (Z.of_nat (length l))) as [Hf|Hf];
    destruct block, timeout as [t|]; simpl; try destruct (SFltb t (S754_zero false));
    intros H; inversion H; lia.
Qed.

Lemma put_capacity q m block timeout q' evs r :
  0 < maxsize q -> qsize q <= maxsize q -> put q m block timeout = (q', evs, r) ->
  qsize q' <= maxsize q' /\ maxsize q' = maxsize q.
Proof.
  intros Hpos Hle. unfold put.
  destruct (type_rejected q m); [intros H; inversion H; subst; auto|].
  destruct (queue_put (maxsize q) (items q) m block timeout) as [l| | |] eqn:Eq.
  - pose proof (queue_put_room _ _ _ _ _ _ Hpos Eq) as Hroom.
    apply queue_put_ok in Eq. subst l.
    destruct (hooks_get (hooks q) (type m)) as [hs|];
      [destruct (run_hooks (name q) hs m) as [evs0 r0]|];
      intros H; inversion H; subst; unfold qsize; simpl; rewrite length_app; simpl;
      split; [lia|reflexivity| lia|reflexivity].
  - intros H; inversion H; subst. unfold qsize in *. simpl. auto.
  - intros H; inversion H; subst. auto.
  - intros H; inversion H; subst. auto.
Qed.

Lemma get_capacity q block timeout q' o :
  get q block timeout = (q', o) ->
  (length (items q') <= length (items q))%nat /\ maxsize q' = maxsize q.
Proof.
  unfold get.
  destruct (items q) as [|x l] eqn:E; destruct block; destruct timeout as [t|];
    try destruct (SFltb t (S754_zero false)); simpl; intros H; inversion H; subst;
    simpl; rewrite ?E; simpl; split; auto; lia.
Qed.

Lemma other_put_capacity q o q' evs :
  0 < maxsize q -> qsize q <= maxsize q -> other_thread_put q o = (q', evs) ->
  qsize q' <= maxsize q' /\ maxsize q' = maxsize q.
Proof.
  intros Hpos Hle. unfold other_thread_put. destruct o as [m'|].
  - destruct (put q m' false None) as [[q1 e1] r1] eqn:E. intros H; inversion H; subst.
    exact (put_capacity _ _ _ _ _ _ _ Hpos Hle E).
  - intros H; inversion H; subst. auto.
Qed.

Lemma get_by_type_capacity turns : forall q t block timeout q' evs r,
  0 < maxsize q -> qsize q <= maxsize q ->
  get_by_type q t block timeout turns = (q', evs, r) -> qsize q' <= maxsize q'.
Proof.
  induction turns as [|st turns IH]; intros q t block timeout q' evs r Hpos Hle; simpl.
  - intros H; inversion H; subst; exact Hle.
  - destruct (match timeout with Some _ => expired st | None => false end).
    { intros H; inversion H; subst; exact Hle. }
    destruct (get q block (poll_timeout block)) as [q1 o] eqn:Eg.
    apply get_capacity in Eg as [Hl1 Hm1].
    assert (0 < maxsize q1 /\ qsize q1 <= maxsize q1) as [Hp1 Hle1].
    { unfold qsize in *. rewrite Hm1. split; lia. }
    destruct o as [[msg|]|e|].
    + destruct (py_eqb (type msg) t); [intros H; inversion H; subst; exact Hle1|].
      destruct (other_thread_put q1 (interleaved st)) as [q2 ev0] eqn:Eo.
      apply other_put_capacity in Eo as [Hle2 Hm2]; [|exact Hp1|exact Hle1].
      assert (0 < maxsize q2) as Hp2 by lia.
      destruct (put q2 msg false None) as [[q3 ev1] r3] eqn:Ep.
      apply put_capacity in Ep as [Hle3 Hm3]; [|exact Hp2|exact Hle2].
      assert (0 < maxsize q3) as Hp3 by lia.
      destruct r3 as [b|e|];
        [destruct (get_by_type q3 t block timeout turns) as [[q4 ev2] r4] eqn:Er
        | |destruct (get_by_type q3 t block timeout turns) as [[q4 ev2] r4] eqn:Er];
        intros H; inversion H; subst; [eapply IH; [exact Hp3|exact Hle3|exact Er]
                                       |exact Hle3
                                       |eapply IH; [exact Hp3|exact Hle3|exact Er]].
    + destruct block; [|intros H; inversion H; subst; exact Hle1].
      destruct (other_thread_put q1 (interleaved st)) as [q2 ev0] eqn:Eo.
      apply other_put_capacity in Eo as [Hle2 Hm2]; [|exact Hp1|exact Hle1].
      assert (0 < maxsize q2) as Hp2 by lia.
      destruct (get_by_type q2 t true timeout turns) as [[q3 ev1] r3] eqn:Er.
      intros H; inversion H; subst. eapply IH; [exact Hp2|exact Hle2|exact Er].
    + intros H; inversion H; subst; exact Hle1.
    + intros H; inversion H; subst; exact Hle1.
Qed.

(** A bounded queue never holds more than [maxsize] messages: from a
    state within capacity, neither [put] (whatever [block] and [timeout])
    nor [get_by_type] (with its put-backs and whatever other threads put in
    between) leaves more than [maxsize] messages queued. *)
Theorem queue_never_over_capacity (q : CommunicationQueue) :
  0 < maxsize q -> qsize q <= maxsize q ->
  (forall m block timeout q' evs r,
     put q m block timeout = (q', evs, r) -> qsize q' <= maxsize q') /\
  (forall t block timeout turns q' evs r,
     get_by_type q t block timeout turns = (q', evs, r) -> qsize q' <= maxsize q').
Proof.
  intros Hpos Hle. split.
  - intros m block timeout q' evs r H. exact (proj1 (put_capacity _ _ _ _ _ _ _ Hpos Hle H)).
  - intros t block timeout turns q' evs r H. exact (get_by_type_capacity _ _ _ _ _ _ _ _ Hpos Hle H).
Qed.

Lemma queue_never_over_capacity_witness :
  let m := mkMessage (PStr "tick") (PDict []) (PFloat (S754_zero false)) (PStr "0") in
  let q := set_items (CommunicationQueue_init 1 "comm_queue" None) [m] in
  (0 < maxsize q /\ qsize q <= maxsize q) /\
  (forall q' evs r, put q m false None = (q', evs, r) -> qsize q' <= maxsize q').
Proof.
  intros m q. split; [vm_compute; split; [reflexivity|discriminate]|].
  intros q' evs r H.
  exact (proj1 (queue_never_over_capacity q ltac:(vm_compute; reflexivity)
                  ltac:(vm_compute; discriminate)) m false None q' evs r H).
Defined.

(* ----------------------------------------------------------------- *)
(** ** [get_by_type] without a timeout *)

Lemma set_items_items q : set_items q (items q) = q.
Proof. destruct q; reflexivity. Qed.

Lemma get_empty_poll q : items q = [] -> get q true (poll_timeout true) = (q, GetReturn None).
Proof. intros E. unfold get. rewrite E. reflexivity. Qed.

Lemma get_by_type_spin_aux (q0 : CommunicationQueue) (t : pyval) (block : bool) (n : nat) :
  forall l,
  Forall (fun x => py_eqb (type x) t = false /\ type_rejected q0 x = false /\
                   no_base_exception x (hooks_for q0 (type x))) l ->
  (maxsize q0 <= 0 \/ Z.of_nat (length l) <= maxsize q0) ->
  (block = true \/ l <> []) ->
  exists q' evs, get_by_type (set_items q0 l) t block None (quiet_turns n)
                 = (q', evs, GbtRunning) /\ dropped_count q' = dropped_count q0.
Proof.
  induction n as [|n IH]; intros l Hl Hcap Hb.
  - exists (set_items q0 l), []. split; reflexivity.
  - unfold quiet_turns. cbn [repeat get_by_type expired interleaved].
    fold (quiet_turns n).
    destruct l as [|x l'].
    + destruct Hb as [-> | Hb]; [|contradiction].
      rewrite (get_empty_poll (set_items q0 []) eq_refl).
      cbn [other_thread_put].
      destruct (IH [] Hl Hcap (or_introl eq_refl)) as (q' & evs & Hq' & Hd).
      rewrite Hq'. exists q', ([] ++ evs). split; [reflexivity|exact Hd].
    + inversion Hl as [|? ? [Hx [Hxa Hxh]] Hl']; subst.
      rewrite (get_head (set_items q0 (x :: l')) block x l' eq_refl), Hx.
      cbn [other_thread_put].
      rewrite (put_enqueued (set_items (set_items q0 (x :: l')) l') x false None (l' ++ [x]));
        [| exact Hxa
         | apply queue_put_nonblocking_room; simpl in *; lia
         | exact Hxh].
      change (set_items (set_items (set_items q0 (x :: l')) l') (l' ++ [x]))
        with (set_items q0 (l' ++ [x])).
      destruct (IH (l' ++ [x])) as (q' & evs & Hq' & Hd).
      * apply Forall_app. split; [exact Hl'|repeat constructor; assumption].
      * rewrite length_app. simpl in *. lia.
      * right. destruct l'; discriminate.
      * rewrite Hq'. eexists q', _. split; [reflexivity|exact Hd].
Qed.

(** With no [timeout] and no other thread putting a message of kind [t],
    [get_by_type(t)] never returns while the queue holds no message of kind
    [t]: it keeps taking the messages and putting them back (when the queue
    is not empty), or polling an empty queue (when [block] is true), for
    any number of turns, and drops nothing. The queue holds admitted
    messages within its capacity, as [put] leaves it. *)
Theorem get_by_type_spins (q : CommunicationQueue) (t : pyval) (block : bool) (n : nat) :
  Forall (fun x => py_eqb (type x) t = false) (items q) ->
  Forall (fun x => type_rejected q x = false) (items q) ->
  Forall (fun x => no_base_exception x (hooks_for q (type x))) (items q) ->
  (maxsize q <= 0 \/ qsize q <= maxsize q) ->
  (block = true \/ items q <> []) ->
  exists q' evs, get_by_type q t block None (quiet_turns n) = (q', evs, GbtRunning) /\
                 dropped_count q' = dropped_count q.
Proof.
  intros H1 H2 H3 Hcap Hb.
  assert (Forall (fun x => py_eqb (type x) t = false /\ type_rejected q x = false /\
                           no_base_exception x (hooks_for q (type x))) (items q)) as Hl.
  { rewrite Forall_forall in *. intros x Hx. auto. }
  pose proof (get_by_type_spin_aux q t block n (items q) Hl Hcap Hb) as H.
  rewrite set_items_items in H. exact H.
Qed.

Lemma get_by_type_spins_witness :
  let mk k i := mkMessage (PStr k) (PDict []) (PFloat (S754_zero false)) (PStr i) in
  let q := set_items (CommunicationQueue_init 3 "comm_queue" None) [mk "a" "1"; mk "c" "2"] in
  exists q' evs, get_by_type q (PStr "b") false None (quiet_turns 7) = (q', evs, GbtRunning) /\
                 dropped_count q' = dropped_count q.
Proof.
  intros mk q. apply (get_by_type_spins q (PStr "b") false 7).
  - repeat constructor.
  - repeat constructor.
  - repeat constructor.
  - right. vm_compute. discriminate.
  - right. discriminate.
Defined.

(* ----------------------------------------------------------------- *)
(** ** [clear] and [__iter__] *)

Lemma clear_loop_empties n : forall q, (length (items q) <= n)%nat -> clear_loop n q = set_items q [].
Proof.
  induction n as [|n IH]; intros q Hn; simpl.
  - destruct q as [mx nm mt [|x l] d hs]; simpl in *; [reflexivity|lia].
  - destruct (items q) as [|x l] eqn:E.
    + rewrite <- E. symmetry. apply set_items_items.
    + unfold get. simpl. rewrite E. rewrite IH; [reflexivity|].
      simpl in *. lia.
Qed.

(** [clear] empties the queue and keeps everything else: capacity, name,
    allow-list, drop count and hooks; a [get(block=False)] right after it
    returns [None]. *)
Theorem clear_empties (q : CommunicationQueue) :
  clear q = set_items q [] /\ get (clear q) false None = (clear q, GetReturn None).
Proof.
  assert (clear q = set_items q []) as E by (apply clear_loop_empties; lia).
  split; [exact E|]. rewrite E. reflexivity.
Qed.

Lemma iter_run_aux l : forall n q, items q = l -> (length l < n)%nat ->
  iter_run n q = (set_items q [], l, true).
Proof.
  induction l as [|x l IH]; intros n q E Hn; (destruct n as [|n]; [simpl in Hn; lia|]).
  - cbn [iter_run]. unfold get. rewrite E. simpl. rewrite <- E, set_items_items. reflexivity.
  - cbn [iter_run]. unfold get at 1. rewrite E. simpl.
    rewrite (IH n (set_items q l) eq_refl) by (simpl in Hn; lia). reflexivity.
Qed.

(** Iterating over a queue with no other thread: the generator yields the
    queued messages oldest first, leaves the queue empty and then waits in
    [get(block=True)] for ever; it never stops by itself. *)
Theorem iter_fifo_then_blocks (q : CommunicationQueue) (n : nat) :
  (length (items q) < n)%nat -> iter_run n q = (set_items q [], items q, true).
Proof. intros Hn. apply iter_run_aux; [reflexivity|exact Hn]. Qed.

Lemma iter_fifo_then_blocks_witness :
  let mk k i := mkMessage (PStr k) (PDict []) (PFloat (S754_zero false)) (PStr i) in
  let q := set_items (CommunicationQueue_init 3 "comm_queue" None) [mk "a" "1"; mk "c" "2"] in
  (length (items q) < 3)%nat /\ iter_run 3 q = (set_items q [], items q, true).
Proof.
  intros mk q. split; [simpl; lia|]. apply iter_fifo_then_blocks. simpl. lia.
Defined.

(* ----------------------------------------------------------------- *)
(** ** [register_hook] *)

Lemma py_eqb_PStr_ne s s' : s <> s' -> py_eqb (PStr s') (PStr s) = false.
Proof.
  intros Hne. destruct (py_eqb (PStr s') (PStr s)) eqn:E; [|reflexivity].
  apply py_eqb_str in E. congruence.
Qed.

Lemma hooks_get_append_other (hs : list (pyval * list Hook)) s s' cb :
  s <> s' -> hooks_get (hooks_append hs (PStr s) cb) (PStr s') = hooks_get hs (PStr s').
Proof.
  intros Hne. induction hs as [|[k l] hs IH]; unfold hooks_get in *; cbn -[py_eqb].
  - rewrite (py_eqb_PStr_ne s s' Hne). reflexivity.
  - destruct (py_eqb (PStr s) k) eqn:Ek.
    + apply py_eqb_str in Ek. subst k. cbn -[py_eqb].
      rewrite (py_eqb_PStr_ne s s' Hne). reflexivity.
    + cbn -[py_eqb]. destruct (py_eqb (PStr s') k); [reflexivity|exact IH].
Qed.

(** [register_hook(s, cb)] changes only the hooks of kind [s]: the hooks
    [put] runs for any other kind, the queued messages and the drop count
    are as before. *)
Theorem register_hook_other_kinds (q : CommunicationQueue) (s s' : string) (cb : Hook) :
  s <> s' ->
  hooks_for (register_hook q (PStr s) cb) (PStr s') = hooks_for q (PStr s') /\
  items (register_hook q (PStr s) cb) = items q /\
  dropped_count (register_hook q (PStr s) cb) = dropped_count q.
Proof.
  intros Hne. unfold hooks_for, register_hook. simpl.
  rewrite (hooks_get_append_other (hooks q) s s' cb Hne). auto.
Qed.

Lemma register_hook_other_kinds_witness :
  let q := CommunicationQueue_init 10 "comm_queue" None in
  let cb := mkHook 1 (fun _ => HookReturns) in
  "log"%string <> "data"%string /\
  hooks_for (register_hook q (PStr "log") cb) (PStr "data") = hooks_for q (PStr "data") /\
  items (register_hook q (PStr "log") cb) = items q /\
  dropped_count (register_hook q (PStr "log") cb) = dropped_count q.
Proof.
  intros q cb. split; [discriminate|]. apply register_hook_other_kinds. discriminate.
Defined.

(* ----------------------------------------------------------------- *)
(** ** [Message.from_dict] *)


(* ----------------------------------------------------------------- *)
(** ** Delivery into queues *)

Lemma repeat_snoc {A} (x : A) n : repeat x n ++ [x] = x :: repeat x n.
Proof. induction n as [|n IH]; simpl; [reflexivity|rewrite IH; reflexivity]. Qed.

(** One [q.put(message)] per entry of [subs]: each queue gets the message
    once per entry that names it. *)
Lemma fold_append_lookup {K} `{Countable K} (subs : gmap K nat) (h : heap) (msg : pyval)
  (qi : nat) :
  map_fold (fun _ q h => queue_append h q msg) h subs !! qi
  = (fun l => l ++ repeat msg (length (filter (fun kq : K * nat => kq.2 = qi) (map_to_list subs))))
      <$> h !! qi.
Proof.
  rewrite map_fold_foldr. induction (map_to_list subs) as [|[k q] l IH]; cbn [foldr uncurry].
  - destruct (h !! qi); [|reflexivity]. cbn. rewrite app_nil_r. reflexivity.
  - unfold queue_append at 1. destruct (decide (q = qi)) as [<-|Hne].
    + rewrite lookup_alter_eq, IH, filter_cons_True by reflexivity.
      destruct (h !! q); [|reflexivity]. cbn.
      rewrite <- app_assoc, repeat_snoc. reflexivity.
    + rewrite lookup_alter_ne by exact Hne.
      rewrite filter_cons_False by (cbn; exact Hne). exact IH.
Qed.

Lemma fold_append_is_Some {K} `{Countable K} (subs : gmap K nat) (h : heap) msg qi :
  is_Some (map_fold (fun _ q h => queue_append h q msg) h subs !! qi) <-> is_Some (h !! qi).
Proof. rewrite fold_append_lookup. apply fmap_is_Some. Qed.

(* ----------------------------------------------------------------- *)
(** ** The registry of src/pubsub_module.py *)

Lemma ps_subscribe_shape ps topic :
  exists subs,
    ps_subscribe ps topic
    = (mkPubSub (<[topic := <[ps_next_sub_id ps := ps_next_q ps]> subs]> (ps_topics ps))
                (ps_next_sub_id ps + 1) (<[ps_next_q ps := []]> (ps_queues ps))
                (S (ps_next_q ps)),
       (ps_next_sub_id ps, ps_next_q ps)) /\
    (ps_topics ps !! topic = Some subs \/ (ps_topics ps !! topic = None /\ subs = ∅)).
Proof.
  unfold ps_subscribe. destruct (ps_topics ps !! topic) as [s|] eqn:E.
  - exists s. rewrite E. split; [reflexivity|left; reflexivity].
  - exists ∅. rewrite lookup_insert_eq, insert_insert_eq. split; [reflexivity|right; auto].
Qed.

Lemma ps_wf_subscribe ps topic : ps_wf ps -> ps_wf (fst (ps_subscribe ps topic)).
Proof.
  intros [Ht Hq]. destruct (ps_subscribe_shape ps topic) as [subs [-> Hsub]]. cbn [fst].
  assert (map_Forall (fun (sid : Z) (q : nat) => Z.lt sid (ps_next_sub_id ps) /\
                        Nat.lt q (ps_next_q ps) /\ is_Some (ps_queues ps !! q)) subs) as Hs.
  { destruct Hsub as [Hsub|[_ ->]]; [exact (proj2 (Ht _ _ Hsub))|apply map_Forall_empty]. }
  split; cbn [ps_topics ps_queues ps_next_q ps_next_sub_id].
  - intros t s' Hs'. destruct (decide (t = topic)) as [->|Hne].
    + rewrite lookup_insert_eq in Hs'. injection Hs' as <-.
      split; [apply insert_non_empty|].
      apply map_Forall_insert_2.
      * split; [lia|split; [lia|rewrite lookup_insert_eq; eexists; reflexivity]].
      * apply (map_Forall_impl _ _ _ Hs). intros i x (H1 & H2 & H3).
        split; [lia|split; [lia|apply lookup_insert_is_Some'; right; exact H3]].
    + rewrite lookup_insert_ne in Hs' by congruence.
      destruct (Ht _ _ Hs') as [Hne' Hf]. split; [exact Hne'|].
      apply (map_Forall_impl _ _ _ Hf). intros i x (H1 & H2 & H3).
      split; [lia|split; [lia|apply lookup_insert_is_Some'; right; exact H3]].
  - intros q' Hq'. apply lookup_insert_is_Some' in Hq' as [<-|Hq']; [lia|].
    apply Hq in Hq'. lia.
Qed.

Lemma ps_wf_unsubscribe ps topic sid q : ps_wf ps -> ps_wf (ps_unsubscribe ps topic sid q).
Proof.
  intros Hwf. unfold ps_unsubscribe.
  destruct (ps_topics ps !! topic) as [subs|] eqn:E; [|exact Hwf].
  destruct (subs !! sid) as [q0|] eqn:Es; [|exact Hwf].
  destruct Hwf as [Ht Hq].
  assert (forall x, is_Some (ps_queues ps !! x) ->
                    is_Some (queue_append (ps_queues ps) q PNone !! x)) as Hal.
  { intros x Hx. unfold queue_append. apply lookup_alter_is_Some. exact Hx. }
  split; cbn [ps_topics ps_queues ps_next_q ps_next_sub_id].
  - intros t s' Hs'. case_decide as Hemp.
    + destruct (decide (t = topic)) as [->|Hne];
        [rewrite lookup_delete_eq in Hs'; discriminate|].
      rewrite lookup_delete_ne in Hs' by congruence.
      destruct (Ht _ _ Hs') as [Hne' Hf]. split; [exact Hne'|].
      apply (map_Forall_impl _ _ _ Hf). intros i x (H1 & H2 & H3). auto.
    + destruct (decide (t = topic)) as [->|Hne].
      * rewrite lookup_insert_eq in Hs'. injection Hs' as <-.
        split; [exact Hemp|]. apply map_Forall_delete.
        apply (map_Forall_impl _ _ _ (proj2 (Ht _ _ E))). intros i x (H1 & H2 & H3). auto.
      * rewrite lookup_insert_ne in Hs' by congruence.
        destruct (Ht _ _ Hs') as [Hne' Hf]. split; [exact Hne'|].
        apply (map_Forall_impl _ _ _ Hf). intros i x (H1 & H2 & H3). auto.
  - intros x Hx. unfold queue_append in Hx. apply lookup_alter_is_Some in Hx. auto.
Qed.

Lemma ps_wf_publish ps topic msg : ps_wf ps -> ps_wf (ps_publish ps topic msg).
Proof.
  intros Hwf. unfold ps_publish.
  destruct (ps_topics ps !! topic) as [subs|] eqn:E; [|exact Hwf].
  destruct Hwf as [Ht Hq].
  split; cbn [ps_topics ps_queues ps_next_q ps_next_sub_id].
  - intros t s' Hs'. destruct (Ht _ _ Hs') as [Hne' Hf]. split; [exact Hne'|].
    apply (map_Forall_impl _ _ _ Hf). intros i x (H1 & H2 & H3).
    split; [exact H1|split; [exact H2|apply fold_append_is_Some; exact H3]].
  - intros x Hx. apply fold_append_is_Some in Hx. auto.
Qed.

(** The registry of [pubsub_module.PubSubWithQueue] stays well formed:
    every subscription has an id below [next_sub_id] and a queue that
    exists, and no topic is left mapping to an empty dict; [subscribe],
    [unsubscribe] (whatever queue it is given) and [publish] keep this. *)
Theorem ps_wf_preserved (ps : PubSub) :
  ps_wf ps ->
  (forall topic, ps_wf (fst (ps_subscribe ps topic))) /\
  (forall topic sid q, ps_wf (ps_unsubscribe ps topic sid q)) /\
  (forall topic msg, ps_wf (ps_publish ps topic msg)).
Proof.
  intros Hwf. split; [|split].
  - intros topic. exact (ps_wf_subscribe ps topic Hwf).
  - intros topic sid q. exact (ps_wf_unsubscribe ps topic sid q Hwf).
  - intros topic msg. exact (ps_wf_publish ps topic msg Hwf).
Qed.

Lemma ps_wf_init : ps_wf PubSub_init.
Proof.
  split; cbn [ps_topics ps_queues ps_next_q PubSub_init].
  - intros t subs H. rewrite lookup_empty in H. discriminate.
  - intros q [x H]. rewrite lookup_empty in H. discriminate.
Qed.

Lemma ps_wf_preserved_witness :
  ps_wf PubSub_init /\ ps_wf (fst (ps_subscribe PubSub_init "news")).
Proof.
  split; [exact ps_wf_init|].
  exact (proj1 (ps_wf_preserved PubSub_init ps_wf_init) "news"%string).
Defined.

(** [subscribe(topic, cb)] on a well-formed registry adds exactly one
    subscription: its id is [next_sub_id], registered under no topic
    before, and its queue is new and empty; every other subscription and
    every other queue are as they were. *)
Theorem ps_subscribe_fresh (ps : PubSub) (topic : string) (ps' : PubSub) (sid : Z) (q : nat) :
  ps_wf ps ->
  ps_subscribe ps topic = (ps', (sid, q)) ->
  sid = ps_next_sub_id ps /\
  (forall t, (ps_topics ps !! t ≫= (fun s => s !! sid)) = None) /\
  ps_queues ps !! q = None /\ ps_queues ps' !! q = Some [] /\
  (ps_topics ps' !! topic ≫= (fun s => s !! sid)) = Some q /\
  (forall t sid', (t, sid') <> (topic, sid) ->
     (ps_topics ps' !! t ≫= (fun s => s !! sid')) = (ps_topics ps !! t ≫= (fun s => s !! sid'))) /\
  (forall q', q' <> q -> ps_queues ps' !! q' = ps_queues ps !! q').
Proof.
  intros [Ht Hq] Hsub. destruct (ps_subscribe_shape ps topic) as [subs [Hs Hsubs]].
  rewrite Hs in Hsub. injection Hsub as <- <- <-.
  cbn [ps_topics ps_queues ps_next_q ps_next_sub_id].
  split; [reflexivity|]. split; [|split; [|split; [|split; [|split]]]].
  - intros t. destruct (ps_topics ps !! t) as [s|] eqn:E; [|reflexivity]. cbn.
    destruct (s !! ps_next_sub_id ps) as [x|] eqn:E2; [|reflexivity].
    destruct (proj2 (Ht _ _ E) _ _ E2) as [H1 _]. lia.
  - destruct (ps_queues ps !! ps_next_q ps) as [x|] eqn:E; [|reflexivity].
    assert (is_Some (ps_queues ps !! ps_next_q ps)) as Hx by (rewrite E; eexists; reflexivity).
    apply Hq in Hx. lia.
  - apply lookup_insert_eq.
  - rewrite lookup_insert_eq. cbn. apply lookup_insert_eq.
  - intros t sid' Hne. destruct (decide (t = topic)) as [->|Hne'].
    + rewrite lookup_insert_eq. cbn.
      rewrite lookup_insert_ne by congruence.
      destruct Hsubs as [-> | [-> ->]]; cbn; [reflexivity|apply lookup_empty].
    + rewrite lookup_insert_ne by congruence. reflexivity.
  - intros q' Hne. apply lookup_insert_ne. congruence.
Qed.

Lemma ps_subscribe_fresh_witness :
  let '(ps1, _) := ps_subscribe PubSub_init "news" in
  ps_wf ps1 /\
  ps_subscribe ps1 "news" = (fst (ps_subscribe ps1 "news"), (2, 1%nat)) /\
  2 = ps_next_sub_id ps1 /\
  ps_queues ps1 !! 1%nat = None /\
  (ps_topics (fst (ps_subscribe ps1 "news")) !! "news"%string ≫= (fun s => s !! 2))
  = Some 1%nat.
Proof.
  cbn [ps_subscribe]. 
  assert (ps_wf (fst (ps_subscribe PubSub_init "news"))) as Hwf
    by exact (ps_wf_subscribe PubSub_init "news" ps_wf_init).
  destruct (ps_subscribe_fresh (fst (ps_subscribe PubSub_init "news")) "news"
              (fst (ps_subscribe (fst (ps_subscribe PubSub_init "news")) "news")) 2 1 Hwf
              eq_refl) as (H1 & _ & H3 & _ & H5 & _).
  exact (conj Hwf (conj eq_refl (conj H1 (conj H3 H5)))).
Defined.

(** [publish(topic, message)] in src/pubsub_module.py: with no
    subscription to the topic it does nothing; otherwise it leaves the
    subscriptions as they are and appends [message], whatever it is ([None]
    included), to the end of each queue, once for every subscription of the
    topic that uses that queue. *)
Theorem ps_publish_delivers (ps : PubSub) (topic : string) (msg : pyval) :
  (ps_topics ps !! topic = None -> ps_publish ps topic msg = ps) /\
  (forall subs, ps_topics ps !! topic = Some subs ->
     ps_topics (ps_publish ps topic msg) = ps_topics ps /\
     forall qi, ps_queues (ps_publish ps topic msg) !! qi
                = (fun l => l ++ repeat msg
                     (length (filter (fun kq : Z * nat => kq.2 = qi) (map_to_list subs))))
                  <$> ps_queues ps !! qi).
Proof.
  unfold ps_publish. split.
  - intros E. rewrite E. reflexivity.
  - intros subs E. rewrite E. split; [reflexivity|].
    intros qi. apply fold_append_lookup.
Qed.

(** [unsubscribe(topic, sub_id, q)] in src/pubsub_module.py: for a pair
    that is not subscribed it does nothing, not even signal [q]; otherwise
    it removes the subscription and puts [None] into the queue [q] it is
    given, so if [q] is not the subscription's own queue, that queue gets
    no exit signal. *)
Theorem ps_unsubscribe_signals_given_queue (ps : PubSub) (topic : string) (sid : Z) (q : nat) :
  ((ps_topics ps !! topic ≫= (fun s => s !! sid)) = None -> ps_unsubscribe ps topic sid q = ps) /\
  (forall q0, (ps_topics ps !! topic ≫= (fun s => s !! sid)) = Some q0 ->
     ps_queues (ps_unsubscribe ps topic sid q) = queue_append (ps_queues ps) q PNone /\
     (ps_topics (ps_unsubscribe ps topic sid q) !! topic ≫= (fun s => s !! sid)) = None /\
     (q <> q0 -> ps_queues (ps_unsubscribe ps topic sid q) !! q0 = ps_queues ps !! q0)).
Proof.
  unfold ps_unsubscribe. split.
  - destruct (ps_topics ps !! topic) as [subs|] eqn:E; cbn; [|reflexivity].
    intros Hs. rewrite Hs. reflexivity.
  - intros q0. destruct (ps_topics ps !! topic) as [subs|] eqn:E; cbn; [|discriminate].
    intros Hs. rewrite Hs. split; [|split].
    + case_decide; reflexivity.
    + case_decide; cbn [ps_topics].
      * rewrite lookup_delete_eq. reflexivity.
      * rewrite lookup_insert_eq. cbn. apply lookup_delete_eq.
    + intros Hne. case_decide; cbn [ps_queues]; unfold queue_append;
        apply lookup_alter_ne; exact Hne.
Qed.

(* ----------------------------------------------------------------- *)
(** ** The registry of src/demo.py *)

Lemma subscribe_guard_false name topic :
  name <> ""%string -> topic <> UNKNOWN ->
  (String.eqb name "" || bool_decide (topic = UNKNOWN)) = false.
Proof.
  intros Hn Ht. apply orb_false_iff. split.
  - apply String.eqb_neq. exact Hn.
  - apply bool_decide_eq_false_2. exact Ht.
Qed.

Lemma subscribe_new_name r name topic :
  name <> ""%string -> topic <> UNKNOWN ->
  (sub_list r !! topic ≫= (fun s => s !! name)) = None ->
  subscribe r name topic
  = (mkRegistry (<[topic := <[name := reg_next_q r]>
                              (match sub_list r !! topic with Some s => s | None => ∅ end)]>
                   (sub_list r))
                (<[reg_next_q r := []]> (reg_queues r)) (S (reg_next_q r)),
     SubReturn (Some (reg_next_q r))).
Proof.
  intros Hn Ht Hnone. unfold subscribe. rewrite (subscribe_guard_false name topic Hn Ht).
  destruct (sub_list r !! topic) as [s|] eqn:E.
  - cbn in Hnone. rewrite E, Hnone, E. reflexivity.
  - cbn [sub_list reg_queues reg_next_q]. rewrite lookup_insert_eq, lookup_empty.
    cbn [sub_list reg_queues reg_next_q]. rewrite lookup_insert_eq, insert_insert_eq.
    reflexivity.
Qed.

Lemma subscribe_again r name topic subs q0 :
  name <> ""%string -> topic <> UNKNOWN ->
  sub_list r !! topic = Some subs -> subs !! name = Some q0 -> delete name subs <> ∅ ->
  subscribe r name topic
  = (mkRegistry (<[topic := <[name := reg_next_q r]> (delete name subs)]> (sub_list r))
                (<[reg_next_q r := []]> (queue_append (reg_queues r) q0 PNone))
                (S (reg_next_q r)),
     SubReturn (Some (reg_next_q r))).
Proof.
  intros Hn Ht E Eq Hne. unfold subscribe. rewrite (subscribe_guard_false name topic Hn Ht).
  rewrite E, E, Eq. unfold unsubscribe. rewrite E, Eq.
  rewrite (decide_False _ _ Hne). cbn [sub_list reg_queues reg_next_q].
  rewrite lookup_insert_eq, insert_insert_eq. reflexivity.
Qed.

(** [subscribe(name, topic)] with a non-empty name, a topic other than
    [UNKNOWN] and a name not yet subscribed to the topic: returns a new,
    empty queue and registers it under [(topic, name)]; every other
    subscription and every existing queue are left as they were. *)
Theorem subscribe_new_name_installs (r : Registry) (name : string) (topic : CommunicationTopic) :
  name <> ""%string -> topic <> UNKNOWN ->
  (sub_list r !! topic ≫= (fun s => s !! name)) = None ->
  exists r', subscribe r name topic = (r', SubReturn (Some (reg_next_q r))) /\
    reg_queues r' !! reg_next_q r = Some [] /\
    (sub_list r' !! topic ≫= (fun s => s !! name)) = Some (reg_next_q r) /\
    (forall t n, (t, n) <> (topic, name) ->
       (sub_list r' !! t ≫= (fun s => s !! n)) = (sub_list r !! t ≫= (fun s => s !! n))) /\
    (forall q, q <> reg_next_q r -> reg_queues r' !! q = reg_queues r !! q).
Proof.
  intros Hn Ht Hnone. rewrite (subscribe_new_name r name topic Hn Ht Hnone).
  eexists. split; [reflexivity|]. cbn [sub_list reg_queues reg_next_q].
  split; [apply lookup_insert_eq|]. split; [|split].
  - rewrite lookup_insert_eq. cbn. apply lookup_insert_eq.
  - intros t n Hne. destruct (decide (t = topic)) as [->|Htn].
    + rewrite lookup_insert_eq. cbn. rewrite lookup_insert_ne by congruence.
      destruct (sub_list r !! topic); cbn; [reflexivity|apply lookup_empty].
    + rewrite lookup_insert_ne by congruence. reflexivity.
  - intros q Hq. apply lookup_insert_ne. congruence.
Qed.

Lemma subscribe_new_name_installs_witness :
  exists r', subscribe Registry_init "ui" FROM_UI = (r', SubReturn (Some (reg_next_q Registry_init))) /\
    reg_queues r' !! reg_next_q Registry_init = Some [] /\
    (sub_list r' !! FROM_UI ≫= (fun s => s !! "ui"%string)) = Some (reg_next_q Registry_init) /\
    (forall t n, (t, n) <> (FROM_UI, "ui"%string) ->
       (sub_list r' !! t ≫= (fun s => s !! n)) = (sub_list Registry_init !! t ≫= (fun s => s !! n))) /\
    (forall q, q <> reg_next_q Registry_init -> reg_queues r' !! q = reg_queues Registry_init !! q).
Proof.
  apply subscribe_new_name_installs; [discriminate|discriminate|reflexivity].
Defined.

(** Subscribing a name again to a topic on which some other name is also
    subscribed: the old queue gets [None] at its end, the pair now maps to
    a new empty queue, which is returned, and the other subscriptions are
    kept. *)
Theorem subscribe_again_replaces (r : Registry) (name : string) (topic : CommunicationTopic)
  (subs : gmap string nat) (q0 : nat) :
  name <> ""%string -> topic <> UNKNOWN ->
  sub_list r !! topic = Some subs -> subs !! name = Some q0 -> delete name subs <> ∅ ->
  reg_wf r ->
  exists r', subscribe r name topic = (r', SubReturn (Some (reg_next_q r))) /\
    reg_queues r' !! q0 = (fun l => l ++ [PNone]) <$> reg_queues r !! q0 /\
    reg_queues r' !! reg_next_q r = Some [] /\
    (sub_list r' !! topic ≫= (fun s => s !! name)) = Some (reg_next_q r) /\
    (forall n, n <> name ->
       (sub_list r' !! topic ≫= (fun s => s !! n)) = subs !! n).
Proof.
  intros Hn Ht E Eq Hne [Hwf Hq].
  rewrite (subscribe_again r name topic subs q0 Hn Ht E Eq Hne).
  eexists. split; [reflexivity|]. cbn [sub_list reg_queues reg_next_q].
  assert (Nat.lt q0 (reg_next_q r)) as Hlt.
  { destruct (Hwf _ _ E) as (_ & _ & _ & Hf). exact (proj1 (Hf _ _ Eq)). }
  split; [|split; [|split]].
  - rewrite lookup_insert_ne by lia. unfold queue_append. apply lookup_alter_eq.
  - apply lookup_insert_eq.
  - rewrite lookup_insert_eq. cbn. apply lookup_insert_eq.
  - intros n Hnn. rewrite lookup_insert_eq. cbn.
    rewrite lookup_insert_ne by congruence. apply lookup_delete_ne. congruence.
Qed.

Lemma reg_wf_init : reg_wf Registry_init.
Proof.
  split; cbn [sub_list reg_queues reg_next_q Registry_init].
  - intros t subs H. rewrite lookup_empty in H. discriminate.
  - intros q [x H]. rewrite lookup_empty in H. discriminate.
Qed.

Lemma reg_wf_unsubscribe r name topic : reg_wf r -> reg_wf (unsubscribe r name topic).
Proof.
  intros Hwf. unfold unsubscribe.
  destruct (sub_list r !! topic) as [subs|] eqn:E; [|exact Hwf].
  destruct (subs !! name) as [q0|] eqn:Es; [|exact Hwf].
  destruct Hwf as [Ht Hq].
  assert (forall x, is_Some (reg_queues r !! x) ->
                    is_Some (queue_append (reg_queues r) q0 PNone !! x)) as Hal.
  { intros x Hx. unfold queue_append. apply lookup_alter_is_Some. exact Hx. }
  split; cbn [sub_list reg_queues reg_next_q].
  - intros t s' Hs'. case_decide as Hemp.
    + destruct (decide (t = topic)) as [->|Hne];
        [rewrite lookup_delete_eq in Hs'; discriminate|].
      rewrite lookup_delete_ne in Hs' by congruence.
      destruct (Ht _ _ Hs') as (H1 & H2 & H3 & Hf). split; [exact H1|split; [exact H2|split; [exact H3|]]].
      apply (map_Forall_impl _ _ _ Hf). intros i x [Hx1 Hx2]. auto.
    + destruct (decide (t = topic)) as [->|Hne].
      * rewrite lookup_insert_eq in Hs'. injection Hs' as <-.
        destruct (Ht _ _ E) as (H1 & H2 & H3 & Hf).
        split; [exact H1|split; [exact Hemp|split]].
        -- destruct (decide (name = ""%string)) as [->|Hn];
             [apply lookup_delete_eq|rewrite lookup_delete_ne by congruence; exact H3].
        -- apply map_Forall_delete. apply (map_Forall_impl _ _ _ Hf). intros i x [Hx1 Hx2]. auto.
      * rewrite lookup_insert_ne in Hs' by congruence.
        destruct (Ht _ _ Hs') as (H1 & H2 & H3 & Hf). split; [exact H1|split; [exact H2|split; [exact H3|]]].
        apply (map_Forall_impl _ _ _ Hf). intros i x [Hx1 Hx2]. auto.
  - intros x Hx. unfold queue_append in Hx. apply lookup_alter_is_Some in Hx. auto.
Qed.

Lemma reg_wf_publish r topic msg : reg_wf r -> reg_wf (publish r topic msg).
Proof.
  intros Hwf. unfold publish.
  destruct (sub_list r !! topic) as [subs|] eqn:E; [|exact Hwf].
  destruct (py_truthy msg); [|exact Hwf].
  destruct Hwf as [Ht Hq].
  split; cbn [sub_list reg_queues reg_next_q].
  - intros t s' Hs'. destruct (Ht _ _ Hs') as (H1 & H2 & H3 & Hf).
    split; [exact H1|split; [exact H2|split; [exact H3|]]].
    apply (map_Forall_impl _ _ _ Hf). intros i x [Hx1 Hx2].
    split; [exact Hx1|apply fold_append_is_Some; exact Hx2].
  - intros x Hx. apply fold_append_is_Some in Hx. auto.
Qed.

Lemma reg_wf_install sl queues nq topic name subs :
  (forall t s, t <> topic -> sl !! t = Some s ->
     t <> UNKNOWN /\ s <> ∅ /\ s !! ""%string = None /\
     map_Forall (fun (_ : string) (q : nat) => Nat.lt q nq /\ is_Some (queues !! q)) s) ->
  (forall q, is_Some (queues !! q) -> Nat.lt q nq) ->
  subs !! ""%string = None ->
  map_Forall (fun (_ : string) (q : nat) => Nat.lt q nq /\ is_Some (queues !! q)) subs ->
  topic <> UNKNOWN -> name <> ""%string ->
  reg_wf (mkRegistry (<[topic := <[name := nq]> subs]> sl) (<[nq := []]> queues) (S nq)).
Proof.
  intros Ht Hq Hsn Hsf Htop Hn.
  assert (forall x, is_Some (queues !! x) -> is_Some (<[nq := []]> queues !! x)) as Hins.
  { intros x Hx. apply lookup_insert_is_Some'. right. exact Hx. }
  split; cbn [sub_list reg_queues reg_next_q].
  - intros t s' Hs'. destruct (decide (t = topic)) as [->|Hne].
    + rewrite lookup_insert_eq in Hs'. injection Hs' as <-.
      split; [exact Htop|split; [apply insert_non_empty|split]].
      * rewrite lookup_insert_ne by congruence. exact Hsn.
      * apply map_Forall_insert_2.
        -- split; [lia|rewrite lookup_insert_eq; eexists; reflexivity].
        -- apply (map_Forall_impl _ _ _ Hsf). intros i x [Hx1 Hx2]. split; [lia|auto].
    + rewrite lookup_insert_ne in Hs' by congruence.
      destruct (Ht _ _ Hne Hs') as (H1 & H2 & H3 & Hf).
      split; [exact H1|split; [exact H2|split; [exact H3|]]].
      apply (map_Forall_impl _ _ _ Hf). intros i x [Hx1 Hx2]. split; [lia|auto].
  - intros x Hx. apply lookup_insert_is_Some' in Hx as [<-|Hx]; [lia|].
    apply Hq in Hx. lia.
Qed.

Lemma reg_wf_alloc r :
  reg_wf r -> reg_wf (mkRegistry (sub_list r) (<[reg_next_q r := []]> (reg_queues r))
                                 (S (reg_next_q r))).
Proof.
  intros [Ht Hq].
  assert (forall x, is_Some (reg_queues r !! x) ->
                    is_Some (<[reg_next_q r := []]> (reg_queues r) !! x)) as Hins.
  { intros x Hx. apply lookup_insert_is_Some'. right. exact Hx. }
  split; cbn [sub_list reg_queues reg_next_q].
  - intros t s' Hs'. destruct (Ht _ _ Hs') as (H1 & H2 & H3 & Hf).
    split; [exact H1|split; [exact H2|split; [exact H3|]]].
    apply (map_Forall_impl _ _ _ Hf). intros i x [Hx1 Hx2]. split; [lia|auto].
  - intros x Hx. apply lookup_insert_is_Some' in Hx as [<-|Hx]; [lia|].
    apply Hq in Hx. lia.
Qed.

(** The last step of [subscribe]: a new queue, registered when the
    topic's dict is (still) there. *)
Lemma reg_wf_subscribe_tail r2 name topic :
  reg_wf r2 -> topic <> UNKNOWN -> name <> ""%string ->
  reg_wf (fst (match sub_list r2 !! topic with
               | Some subs =>
                   (mkRegistry (<[topic := <[name := reg_next_q r2]> subs]> (sub_list r2))
                      (<[reg_next_q r2 := []]> (reg_queues r2)) (S (reg_next_q r2)),
                    SubReturn (Some (reg_next_q r2)))
               | None => (mkRegistry (sub_list r2) (<[reg_next_q r2 := []]> (reg_queues r2))
                            (S (reg_next_q r2)), SubKeyError)
               end)).
Proof.
  intros Hwf Htop Hn. destruct (sub_list r2 !! topic) as [s|] eqn:E.
  - destruct Hwf as [Ht Hq]. destruct (Ht _ _ E) as (_ & _ & H3 & Hf).
    apply reg_wf_install; auto.
  - apply reg_wf_alloc. exact Hwf.
Qed.

Lemma reg_wf_subscribe r name topic : reg_wf r -> reg_wf (fst (subscribe r name topic)).
Proof.
  intros Hwf. unfold subscribe.
  destruct (String.eqb name "" || bool_decide (topic = UNKNOWN)) eqn:G; [exact Hwf|].
  apply orb_false_iff in G as [Gn Gt].
  apply String.eqb_neq in Gn. apply bool_decide_eq_false_1 in Gt.
  cbv zeta.
  destruct (sub_list r !! topic) as [s|] eqn:E.
  - rewrite E. destruct (s !! name) as [q0|] eqn:Eq.
    + apply reg_wf_subscribe_tail; [apply reg_wf_unsubscribe; exact Hwf|exact Gt|exact Gn].
    + apply reg_wf_subscribe_tail; [exact Hwf|exact Gt|exact Gn].
  - cbn [sub_list reg_queues reg_next_q]. rewrite lookup_insert_eq, lookup_empty.
    cbn [sub_list reg_queues reg_next_q]. rewrite lookup_insert_eq.
    destruct Hwf as [Ht Hq].
    apply reg_wf_install; auto.
    + intros t s' Hne Hs'. rewrite lookup_insert_ne in Hs' by congruence. auto.
    + apply map_Forall_empty.
Qed.

(** The registry of [demo.PubSubWithQueue] stays well formed: nothing is
    ever subscribed under [UNKNOWN] or the empty name, no topic is left
    mapping to an empty dict, and every subscribed queue exists;
    [subscribe] (even when it raises [KeyError]), [unsubscribe] and
    [publish] keep this. *)
Theorem reg_wf_preserved (r : Registry) :
  reg_wf r ->
  (forall name topic, reg_wf (fst (subscribe r name topic))) /\
  (forall name topic, reg_wf (unsubscribe r name topic)) /\
  (forall topic msg, reg_wf (publish r topic msg)).
Proof.
  intros Hwf. split; [|split].
  - intros name topic. exact (reg_wf_subscribe r name topic Hwf).
  - intros name topic. exact (reg_wf_unsubscribe r name topic Hwf).
  - intros topic msg. exact (reg_wf_publish r topic msg Hwf).
Qed.

Lemma reg_wf_preserved_witness :
  reg_wf Registry_init /\ reg_wf (fst (subscribe Registry_init "s1" FROM_UI)).
Proof.
  split; [exact reg_wf_init|].
  exact (proj1 (reg_wf_preserved Registry_init reg_wf_init) "s1"%string FROM_UI).
Defined.

Lemma subscribe_again_replaces_witness :
  let r := fst (subscribe (fst (subscribe Registry_init "a" FROM_UI)) "b" FROM_UI) in
  let subs := match sub_list r !! FROM_UI with Some s => s | None => ∅ end in
  exists r', subscribe r "a" FROM_UI = (r', SubReturn (Some (reg_next_q r))) /\
    reg_queues r' !! 0%nat = (fun l => l ++ [PNone]) <$> reg_queues r !! 0%nat /\
    reg_queues r' !! reg_next_q r = Some [] /\
    (sub_list r' !! FROM_UI ≫= (fun s => s !! "a"%string)) = Some (reg_next_q r) /\
    (forall n, n <> "a"%string ->
       (sub_list r' !! FROM_UI ≫= (fun s => s !! n)) = subs !! n).
Proof.
  intros r subs.
  assert (reg_wf r) as Hwf
    by exact (reg_wf_subscribe _ _ _ (reg_wf_subscribe _ _ _ reg_wf_init)).
  apply (subscribe_again_replaces r "a" FROM_UI subs 0);
    [discriminate|discriminate|vm_compute; reflexivity|vm_compute; reflexivity
    |vm_compute; discriminate|exact Hwf].
Defined.

Lemma unsubscribe_absent r name topic :
  (sub_list r !! topic ≫= (fun s => s !! name)) = None -> unsubscribe r name topic = r.
Proof.
  intros H. unfold unsubscribe.
  destruct (sub_list r !! topic) as [subs|]; [|reflexivity].
  cbn in H. rewrite H. reflexivity.
Qed.

(** [demo.PubSubWithQueue.unsubscribe]: without the subscription it does
    nothing; with it, the subscriber's queue gets one [None], the pair
    [(topic, name)] is gone and every other pair keeps its queue, and the
    topic is not left mapping to an empty dict. *)
Theorem unsubscribe_effect (r : Registry) (name : string) (topic : CommunicationTopic) :
  ((sub_list r !! topic ≫= (fun s => s !! name)) = None -> unsubscribe r name topic = r) /\
  (forall q, (sub_list r !! topic ≫= (fun s => s !! name)) = Some q ->
     let r' := unsubscribe r name topic in
     reg_queues r' = queue_append (reg_queues r) q PNone /\
     reg_next_q r' = reg_next_q r /\
     (sub_list r' !! topic ≫= (fun s => s !! name)) = None /\
     (forall t n, (t, n) <> (topic, name) ->
        (sub_list r' !! t ≫= (fun s => s !! n)) = (sub_list r !! t ≫= (fun s => s !! n))) /\
     sub_list r' !! topic <> Some ∅).
Proof.
  split; [apply unsubscribe_absent|].
  intros q H r'. subst r'. unfold unsubscribe.
  destruct (sub_list r !! topic) as [subs|] eqn:E; [|discriminate].
  cbn in H. rewrite H. cbn [sub_list reg_queues reg_next_q].
  split; [reflexivity|split; [reflexivity|]].
  case_decide as Hemp.
  - split; [rewrite lookup_delete_eq; reflexivity|split; [|rewrite lookup_delete_eq; discriminate]].
    intros t n Hne. destruct (decide (t = topic)) as [->|Ht].
    + rewrite lookup_delete_eq, E. cbn.
      assert (n <> name) as Hn by congruence.
      rewrite <- (lookup_delete_ne subs name n) by congruence. rewrite Hemp, lookup_empty.
      reflexivity.
    + rewrite lookup_delete_ne by congruence. reflexivity.
  - split; [rewrite lookup_insert_eq; cbn; apply lookup_delete_eq|split].
    + intros t n Hne. destruct (decide (t = topic)) as [->|Ht].
      * rewrite lookup_insert_eq, E. cbn.
        assert (n <> name) as Hn by congruence.
        apply lookup_delete_ne. congruence.
      * rewrite lookup_insert_ne by congruence. reflexivity.
    + rewrite lookup_insert_eq. congruence.
Qed.

Lemma publish_sub_list r topic msg : sub_list (publish r topic msg) = sub_list r.
Proof.
  unfold publish. destruct (sub_list r !! topic); [|reflexivity].
  destruct (py_truthy msg); reflexivity.
Qed.

(** [demo.PubSubWithQueue.publish]: a false message ([None]) or a topic
    nobody subscribed to changes nothing; otherwise the subscriptions stay
    as they are and each queue gets the message appended once per
    subscriber of the topic that holds it. *)
Theorem publish_delivers (r : Registry) (topic : CommunicationTopic) (msg : pyval) :
  ((py_truthy msg = false \/ sub_list r !! topic = None) -> publish r topic msg = r) /\
  (forall subs, sub_list r !! topic = Some subs -> py_truthy msg = true ->
     sub_list (publish r topic msg) = sub_list r /\
     reg_next_q (publish r topic msg) = reg_next_q r /\
     forall qi, reg_queues (publish r topic msg) !! qi
       = (fun l => l ++ repeat msg (length (filter (fun kq : string * nat => kq.2 = qi)
                                                   (map_to_list subs))))
         <$> reg_queues r !! qi).
Proof.
  split.
  - intros [Hm|Ht]; unfold publish.
    + destruct (sub_list r !! topic); [rewrite Hm|]; reflexivity.
    + rewrite Ht. reflexivity.
  - intros subs Hs Hm. unfold publish. rewrite Hs, Hm. cbn [sub_list reg_queues reg_next_q].
    split; [reflexivity|split; [reflexivity|]].
    intros qi. apply fold_append_lookup.
Qed.

(** [EventManager.publish] on a [PubSubMessage]: on a well-formed registry
    its [topic != UNKNOWN] test changes nothing, it does what
    [PubSubWithQueue.publish] does. *)
Theorem em_publish_is_publish (r : Registry) (topic : CommunicationTopic) (oid : nat) :
  reg_wf r -> em_publish r topic (PObject oid) = publish r topic (PObject oid).
Proof.
  intros [Ht _]. unfold em_publish.
  destruct (decide (topic = UNKNOWN)) as [->|Hne].
  - rewrite bool_decide_eq_true_2 by reflexivity. cbn [negb andb].
    unfold publish. destruct (sub_list r !! UNKNOWN) as [subs|] eqn:E; [|reflexivity].
    destruct (Ht _ _ E) as [H1 _]. congruence.
  - rewrite bool_decide_eq_false_2 by exact Hne. reflexivity.
Qed.

Lemma em_publish_is_publish_witness :
  let r := fst (subscribe Registry_init "a" FROM_UI) in
  (reg_wf r /\ em_publish r FROM_UI (PObject 0) = publish r FROM_UI (PObject 0)) /\
  reg_queues (em_publish r FROM_UI (PObject 0)) !! 0%nat = Some [PObject 0].
Proof.
  intros r.
  assert (reg_wf r) as Hwf by exact (reg_wf_subscribe _ _ _ reg_wf_init).
  split; [split; [exact Hwf|apply em_publish_is_publish; exact Hwf]|].
  vm_compute. reflexivity.
Defined.

Lemma fold_publish_sub_list (msgs : list (CommunicationTopic * pyval)) r :
  sub_list (fold_left (fun r tm => publish r tm.1 tm.2) msgs r) = sub_list r.
Proof.
  revert r. induction msgs as [|[t m] msgs IH]; intros r; cbn [fold_left]; [reflexivity|].
  rewrite IH. apply publish_sub_list.
Qed.

Lemma fold_unsubscribe_absent name (subq : list (CommunicationTopic * nat)) r :
  (forall tq, In tq subq -> (sub_list r !! tq.1 ≫= (fun s => s !! name)) = None) ->
  fold_left (fun r tq => unsubscribe r name tq.1) subq r = r.
Proof.
  induction subq as [|tq subq IH]; intros H; cbn [fold_left]; [reflexivity|].
  rewrite unsubscribe_absent by (apply H; left; reflexivity).
  apply IH. intros tq' Hin. apply H. right. exact Hin.
Qed.

Lemma em_cleanup_unsub_noop r subq :
  (forall tq, In tq subq -> (sub_list r !! tq.1 ≫= (fun s => s !! "event_manager"%string)) = None) ->
  em_cleanup r subq
  = mkRegistry (sub_list r) (fold_left (fun h tq => queue_append h tq.2 PNone) subq (reg_queues r))
               (reg_next_q r).
Proof.
  intros H. unfold em_cleanup. apply fold_unsubscribe_absent. exact H.
Qed.

(** The life of an [EventManager] on a fresh [PubSubWithQueue]:
    [subscribe_to_topics] subscribes the name ["subscribe_to_topics"] to
    [FROM_TASK] and [FROM_UI] with two queues and records them; after any
    sequence of [publish] calls, [cleanup] puts one [None] into each
    recorded queue but, unsubscribing the name ["event_manager"], leaves
    every subscription in place. *)
Theorem event_manager_cleanup_keeps_subscriptions :
  exists r1 subq,
    subscribe_to_topics Registry_init = Some (r1, subq) /\
    subq = [(FROM_TASK, 0%nat); (FROM_UI, 1%nat)] /\
    (sub_list r1 !! FROM_TASK ≫= (fun s => s !! em_sub_name)) = Some 0%nat /\
    (sub_list r1 !! FROM_UI ≫= (fun s => s !! em_sub_name)) = Some 1%nat /\
    forall msgs : list (CommunicationTopic * pyval),
      let r2 := fold_left (fun r tm => publish r tm.1 tm.2) msgs r1 in
      sub_list (em_cleanup r2 subq) = sub_list r1 /\
      forall q, (q = 0 \/ q = 1)%nat ->
        reg_queues (em_cleanup r2 subq) !! q = (fun l => l ++ [PNone]) <$> reg_queues r2 !! q.
Proof.
  destruct (subscribe_to_topics Registry_init) as [[r1 subq]|] eqn:E;
    [|vm_compute in E; discriminate].
  exists r1, subq. split; [reflexivity|].
  vm_compute in E. injection E as <- <-.
  split; [reflexivity|split; [vm_compute; reflexivity|split; [vm_compute; reflexivity|]]].
  intros msgs r2.
  assert (sub_list r2 = sub_list {| sub_list := _; reg_queues := _; reg_next_q := _ |}) as Hs
    by apply fold_publish_sub_list.
  rewrite em_cleanup_unsub_noop.
  - cbn [sub_list reg_queues reg_next_q]. split; [exact Hs|].
    intros q Hq. cbn [fold_left fst snd]. unfold queue_append.
    destruct Hq as [->| ->].
    + rewrite lookup_alter_ne by lia. rewrite lookup_alter_eq. reflexivity.
    + rewrite lookup_alter_eq, lookup_alter_ne by lia. reflexivity.
  - intros tq Hin. rewrite Hs.
    destruct Hin as [<-|[<-|[]]]; vm_compute; reflexivity.
Qed.
